(** * WebAudioPlayer: transport, time model and configuration

    A shallow embedding of the [WebAudioPlayer] class and of the two
    buffer loaders ([loadAudioFromUrl], [loadAudioFromFile]).

    Numbers.  A finite JavaScript number [n] is modelled by the rational
    value of [String(n)], the shortest decimal that reads back as [n].
    [new Big(n)] reads that string, so it is the identity on this value, and
    [big.js] computes [minus], [times], [plus] and [mod] exactly on
    decimals.  [parseFloat(x.valueOf())] rounds the exact decimal [x] to the
    nearest double (ties to even) and is modelled as such: [parseFloat]
    below gives the value of that double's shortest decimal.  A field of
    type [Q] may hold any rational; the values the code can hold are those
    [parseFloat] fixes.  Negative zero is not told from zero, which no
    operation of the player does either.  [NaN] and the infinities are not
    numbers of the model, values stay below the overflow threshold of a
    double, and the values given to the two [AudioParam]s (gain, playback
    rate, stored as single-precision floats) stay within the range of a
    float, outside of which the platform's setter throws.

    Exceptions.  [AudioBufferSourceNode.start] throws a [RangeError] on a
    negative offset or duration; [play] is modelled with it, and it is the
    only exception modelled.  A node whose [start] threw is held unstarted,
    and the platform's [stop] throws on such a node; the record of a node
    does not tell whether it was started, and what is proved of [stop]
    speaks of nodes that were.

    Effects.  Every method is a function from the player to the next
    player together with the list of effects it performed, in order
    (console diagnostics, subscriber notifications, operations on the audio
    graph).  The two promises of the [AudioContext] the player waits for
    ([resume], [suspend]) are kept, with the continuation the player
    attached, in the context's list of pending requests; the environment
    settles them with [ctx_settle]. *)

From Stdlib Require Import QArith Qabs Qround ZArith List Bool Lia.
From Stdlib Require Import Morphisms Setoid Lqa.
Import ListNotations.
Local Open Scope Q_scope.

(* ------------------------------------------------------------------ *)
(** ** Numbers and the [big.js] operations the player uses *)

(** [x > y] on numbers, as the validation of [play] tests it. *)
Definition Qgt_bool (x y : Q) : bool := negb (Qle_bool x y).

(** Truncation toward zero: the integer part of a rational. *)
Definition Qtrunc (x : Q) : Z := Z.quot (Qnum x) (Zpos (Qden x)).

(** JavaScript's [a || b] on numbers: [b] when [a] is falsy, that is zero. *)
Definition js_or (a b : Q) : Q := if Qeq_bool a 0 then b else a.

Module Big.

(** A [Big] is an exact decimal. *)
Definition t := Q.

(** [new Big(n)] for a number [n] reads [String(n)], the value by which
    the number is modelled. *)
Definition Big (n : Q) : t := n.
Definition minus (x : t) (y : Q) : t := x - y.
Definition plus (x : t) (y : Q) : t := x + y.
Definition times (x : t) (y : Q) : t := x * y.

(** [x.div(y)] with [Big.DP = 0] and [Big.RM = 0] (round down): the
    quotient truncated to an integer. *)
Definition div_DP0_RM0 (x y : t) : t := inject_Z (Qtrunc (x / y)).

(** [x.mod(y)] as [big.js] computes it: it throws on a zero divisor
    ([None]); when [|y| > |x|] it returns [x]; otherwise
    [x - trunc(x / y) * y].  The result has the sign of [x], as
    JavaScript's [%]. *)
Definition mod_ (x : t) (y : Q) : option t :=
  if Qeq_bool y 0 then None
  else if Qgt_bool (Qabs y) (Qabs x) then Some x
  else Some (minus x (times (div_DP0_RM0 x y) y)).

Definition valueOf (x : t) : t := x.

End Big.

(** *** Rounding to a floating-point number *)

(** [b^e] for an integer exponent. *)
Definition Qpow (b : positive) (e : Z) : Q :=
  match e with
  | Z0 => 1
  | Zpos n => inject_Z (Zpos (b ^ n))
  | Zneg n => 1 # (b ^ n)
  end.

(** [floor (log_b a)] for [a > 0], searched downwards from an upper
    estimate [e]. *)
Fixpoint log_floor_from (b : positive) (a : Q) (fuel : nat) (e : Z) : Z :=
  match fuel with
  | O => e
  | S fuel' =>
      if Qle_bool (Qpow b e) a then e
      else log_floor_from b a fuel' (e - 1)
  end.

Definition Qlog2_floor (a : Q) : Z :=
  log_floor_from 2 a 3 (Z.log2 (Qnum a) - Z.log2 (Zpos (Qden a)) + 1).

Definition Qlog10_floor (a : Q) : Z :=
  log_floor_from 10 a 6 ((Qlog2_floor a + 1) * 30103 / 100000 + 2).

(** The integer nearest to [r], the even one of two that are as near. *)
Definition round_half_even (r : Q) : Z :=
  let f := Qfloor r in
  match Qcompare (r - inject_Z f) (1 # 2) with
  | Lt => f
  | Gt => (f + 1)%Z
  | Eq => if Z.even f then f else (f + 1)%Z
  end.

(** The binary floating-point number with [prec] significant bits and
    least exponent [emin] that is nearest to [a > 0]. *)
Definition round_binary (prec emin : Z) (a : Q) : Q :=
  let e := Qlog2_floor a in
  let q := Z.max (e - (prec - 1)) emin in
  Qred (inject_Z (round_half_even (a / Qpow 2 q)) * Qpow 2 q).

(** IEEE 754 binary64 and binary32. *)
Definition round_double : Q -> Q := round_binary 53 (-1074).
Definition round_single : Q -> Q := round_binary 24 (-149).

(** Among the decimals with [k] significant digits that [round_double]
    maps to the double [v > 0], the nearest to [v] (the even one of two
    that are as near), if there is one.  [n10] is the number of digits of
    [v] before the decimal point. *)
Definition decimal_of_length (n10 : Z) (v : Q) (k : Z) : option Q :=
  let step := Qpow 10 (n10 - k) in
  let lo := Qfloor (v / step) in
  let c1 := Qred (inject_Z lo * step) in
  let c2 := Qred (inject_Z (lo + 1) * step) in
  let ok1 := Qeq_bool (round_double c1) v && negb (Qeq_bool c1 0) in
  let ok2 := Qeq_bool (round_double c2) v in
  match ok1, ok2 with
  | true, false => Some c1
  | false, true => Some c2
  | false, false => None
  | true, true =>
      match Qcompare (v - c1) (c2 - v) with
      | Lt => Some c1
      | Gt => Some c2
      | Eq => if Z.even lo then Some c1 else Some c2
      end
  end.

Fixpoint shortest_from (n10 : Z) (v : Q) (fuel : nat) (k : Z) : Q :=
  match fuel with
  | O => v
  | S fuel' =>
      match decimal_of_length n10 v k with
      | Some c => c
      | None => shortest_from n10 v fuel' (k + 1)
      end
  end.

(** The value of [String(v)] for the double [v > 0]: the decimal with the
    fewest significant digits, at most 17, that reads back as [v]. *)
Definition shortest_decimal (v : Q) : Q :=
  shortest_from (Qlog10_floor v + 1) v 17 1.

(** A rounding of magnitudes extended to zero and to negative values. *)
Definition on_magnitude (f : Q -> Q) (x : Q) : Q :=
  let r := Qred x in
  match Qnum r with
  | Z0 => 0
  | Zpos _ => f r
  | Zneg _ => Qred (- f (- r))
  end.

(** The number a magnitude [a > 0] rounds to under [round], as the value
    of its shortest decimal; zero when [a] is below the least magnitude of
    the format. *)
Definition rounded_number (round : Q -> Q) (a : Q) : Q :=
  let v := round a in
  if Qeq_bool v 0 then 0 else shortest_decimal v.

(** [parseFloat(x.valueOf())]: the double nearest to the exact decimal
    [x]. *)
Definition parseFloat (x : Big.t) : Q :=
  on_magnitude (rounded_number round_double) x.

(** The number read back from an [AudioParam] that was assigned [x]: the
    single-precision float nearest to [x]. *)
Definition fround (x : Q) : Q :=
  on_magnitude (rounded_number round_single) x.

Arguments parseFloat : simpl never.
Arguments fround : simpl never.

(* ------------------------------------------------------------------ *)
(** ** Data model *)

(** [TPlayerState = 'stop' | 'running' | 'paused' | 'ended']. *)
Inductive TPlayerState : Type :=
| St_stop
| St_running
| St_paused
| St_ended.

Definition TPlayerState_eqb (a b : TPlayerState) : bool :=
  match a, b with
  | St_stop, St_stop | St_running, St_running
  | St_paused, St_paused | St_ended, St_ended => true
  | _, _ => false
  end.

(** A value a caller may put in a field of the object given to
    [setConfig]: the type annotation of [IPlayerConfig] is not checked at
    run time, the method tests [!== undefined] and [typeof] itself.
    [JsNumber n] is a finite number; [NaN] and the infinities, which have
    [typeof] ['number'] too, are not values of the model (the tests of
    [play] on [NaN] are modelled apart, see [play_check_number]). *)
Inductive JsValue : Type :=
| JsUndefined
| JsNumber (n : Q)
| JsBoolean (b : bool)
| JsOther.

(** [v !== undefined && typeof v === 'number'] *)
Definition as_number (v : JsValue) : option Q :=
  match v with JsNumber n => Some n | _ => None end.

(** [v !== undefined && typeof v === 'boolean'] *)
Definition as_boolean (v : JsValue) : option bool :=
  match v with JsBoolean b => Some b | _ => None end.

Record IPlayerConfig : Type := {
  loop : JsValue;
  startOffset : JsValue;
  endOffset : JsValue;
  loopStart : JsValue;
  loopEnd : JsValue;
  rateValue : JsValue;
  gainValue : JsValue
}.

(** The decoded buffer: the player reads its [duration] only. *)
Record AudioBuffer : Type := {
  buffer_id : nat;
  duration : Q
}.

(** The single-use source node with the attributes [play] assigns, as
    they read back; the playback rate is an [AudioParam]. *)
Record AudioBufferSourceNode : Type := {
  node_id : nat;
  node_buffer : AudioBuffer;
  node_playbackRate : Q;
  node_loop : bool;
  node_loopStart : Q;
  node_loopEnd : Q
}.

(** The gain node with the value of its [AudioParam] as it reads back. *)
Record GainNode : Type := { gain_value : Q }.

Inductive AudioContextState : Type :=
| Ctx_suspended
| Ctx_running
| Ctx_closed.

(** What the player does once a promise of the context resolves. *)
Inductive Continuation : Type :=
| K_none                (* the promise is dropped *)
| K_play_resumed        (* [play]: [.then(() => this._emitStateChange('running'))] *)
| K_pause_suspended.    (* [pause]: the statements after [await this._ctx.suspend()] *)

Inductive CtxRequest : Type :=
| ReqResume
| ReqSuspend
| ReqClose.

Record AudioContext : Type := {
  ctx_state : AudioContextState;
  ctx_currentTime : Q;
  ctx_nextNode : nat;
  ctx_pending : list (CtxRequest * Continuation)
}.

(** The state-change subscriber is an opaque callback. *)
Definition TOnStateChange := nat.

(** The messages [play] writes with [console.error]:
    - 'AudioBuffer cannot be empty.'
    - 'loopEnd has to be greater than startOffset'
    - 'loopEnd has to be greater than loopStart'
    - 'endOffset has to be greater than startOffset' *)
Inductive Diagnostic : Type :=
| AudioBuffer_cannot_be_empty
| loopEnd_not_greater_than_startOffset
| loopEnd_not_greater_than_loopStart
| endOffset_not_greater_than_startOffset.

(** The exception of the platform the model follows. *)
Inductive DOMException : Type :=
| RangeError.

Inductive Effect : Type :=
| Throws (e : DOMException)
| ConsoleError (msg : Diagnostic)
| OnStateChange (cb : TOnStateChange) (s : TPlayerState)
| SourceStart (id : nat) (offset : Q) (dur : option Q)
| SourceDestroy (id : nat)
| GainCreate (v : Q)
| GainSet (v : Q)
| CtxResume
| CtxSuspend
| CtxClose.

Record WebAudioPlayer : Type := {
  _ctx : AudioContext;
  _ctxStartTime : Q;
  _lastCurrentTime : Q;
  _audioBuffer : option AudioBuffer;
  _duration : Q;
  _sourceNode : option AudioBufferSourceNode;
  _state : TPlayerState;
  _onStateChange : option TOnStateChange;
  _gainNode : option GainNode;
  _gainValue : Q;
  _loop : bool;
  _startOffset : Q;
  _endOffset : Q;
  _loopStart : Q;
  _loopEnd : Q;
  _rateValue : Q
}.

(** Field assignments [this._f = v]. *)
Definition upd_ctx (v : AudioContext) (p : WebAudioPlayer)
  : WebAudioPlayer :=
  {| _ctx := v; _ctxStartTime := _ctxStartTime p;
     _lastCurrentTime := _lastCurrentTime p; _audioBuffer := _audioBuffer p;
     _duration := _duration p; _sourceNode := _sourceNode p;
     _state := _state p; _onStateChange := _onStateChange p;
     _gainNode := _gainNode p; _gainValue := _gainValue p; _loop := _loop p;
     _startOffset := _startOffset p; _endOffset := _endOffset p;
     _loopStart := _loopStart p; _loopEnd := _loopEnd p;
     _rateValue := _rateValue p |}.

Definition upd_ctxStartTime (v : Q) (p : WebAudioPlayer)
  : WebAudioPlayer :=
  {| _ctx := _ctx p; _ctxStartTime := v;
     _lastCurrentTime := _lastCurrentTime p; _audioBuffer := _audioBuffer p;
     _duration := _duration p; _sourceNode := _sourceNode p;
     _state := _state p; _onStateChange := _onStateChange p;
     _gainNode := _gainNode p; _gainValue := _gainValue p; _loop := _loop p;
     _startOffset := _startOffset p; _endOffset := _endOffset p;
     _loopStart := _loopStart p; _loopEnd := _loopEnd p;
     _rateValue := _rateValue p |}.

Definition upd_lastCurrentTime (v : Q) (p : WebAudioPlayer)
  : WebAudioPlayer :=
  {| _ctx := _ctx p; _ctxStartTime := _ctxStartTime p; _lastCurrentTime := v;
     _audioBuffer := _audioBuffer p; _duration := _duration p;
     _sourceNode := _sourceNode p; _state := _state p;
     _onStateChange := _onStateChange p; _gainNode := _gainNode p;
     _gainValue := _gainValue p; _loop := _loop p;
     _startOffset := _startOffset p; _endOffset := _endOffset p;
     _loopStart := _loopStart p; _loopEnd := _loopEnd p;
     _rateValue := _rateValue p |}.

Definition upd_audioBuffer (v : option AudioBuffer) (p : WebAudioPlayer)
  : WebAudioPlayer :=
  {| _ctx := _ctx p; _ctxStartTime := _ctxStartTime p;
     _lastCurrentTime := _lastCurrentTime p; _audioBuffer := v;
     _duration := _duration p; _sourceNode := _sourceNode p;
     _state := _state p; _onStateChange := _onStateChange p;
     _gainNode := _gainNode p; _gainValue := _gainValue p; _loop := _loop p;
     _startOffset := _startOffset p; _endOffset := _endOffset p;
     _loopStart := _loopStart p; _loopEnd := _loopEnd p;
     _rateValue := _rateValue p |}.

Definition upd_duration (v : Q) (p : WebAudioPlayer)
  : WebAudioPlayer :=
  {| _ctx := _ctx p; _ctxStartTime := _ctxStartTime p;
     _lastCurrentTime := _lastCurrentTime p; _audioBuffer := _audioBuffer p;
     _duration := v; _sourceNode := _sourceNode p; _state := _state p;
     _onStateChange := _onStateChange p; _gainNode := _gainNode p;
     _gainValue := _gainValue p; _loop := _loop p;
     _startOffset := _startOffset p; _endOffset := _endOffset p;
     _loopStart := _loopStart p; _loopEnd := _loopEnd p;
     _rateValue := _rateValue p |}.

Definition upd_sourceNode (v : option AudioBufferSourceNode) (p : WebAudioPlayer)
  : WebAudioPlayer :=
  {| _ctx := _ctx p; _ctxStartTime := _ctxStartTime p;
     _lastCurrentTime := _lastCurrentTime p; _audioBuffer := _audioBuffer p;
     _duration := _duration p; _sourceNode := v; _state := _state p;
     _onStateChange := _onStateChange p; _gainNode := _gainNode p;
     _gainValue := _gainValue p; _loop := _loop p;
     _startOffset := _startOffset p; _endOffset := _endOffset p;
     _loopStart := _loopStart p; _loopEnd := _loopEnd p;
     _rateValue := _rateValue p |}.

Definition upd_state (v : TPlayerState) (p : WebAudioPlayer)
  : WebAudioPlayer :=
  {| _ctx := _ctx p; _ctxStartTime := _ctxStartTime p;
     _lastCurrentTime := _lastCurrentTime p; _audioBuffer := _audioBuffer p;
     _duration := _duration p; _sourceNode := _sourceNode p; _state := v;
     _onStateChange := _onStateChange p; _gainNode := _gainNode p;
     _gainValue := _gainValue p; _loop := _loop p;
     _startOffset := _startOffset p; _endOffset := _endOffset p;
     _loopStart := _loopStart p; _loopEnd := _loopEnd p;
     _rateValue := _rateValue p |}.

Definition upd_onStateChange (v : option TOnStateChange) (p : WebAudioPlayer)
  : WebAudioPlayer :=
  {| _ctx := _ctx p; _ctxStartTime := _ctxStartTime p;
     _lastCurrentTime := _lastCurrentTime p; _audioBuffer := _audioBuffer p;
     _duration := _duration p; _sourceNode := _sourceNode p;
     _state := _state p; _onStateChange := v; _gainNode := _gainNode p;
     _gainValue := _gainValue p; _loop := _loop p;
     _startOffset := _startOffset p; _endOffset := _endOffset p;
     _loopStart := _loopStart p; _loopEnd := _loopEnd p;
     _rateValue := _rateValue p |}.

Definition upd_gainNode (v : option GainNode) (p : WebAudioPlayer)
  : WebAudioPlayer :=
  {| _ctx := _ctx p; _ctxStartTime := _ctxStartTime p;
     _lastCurrentTime := _lastCurrentTime p; _audioBuffer := _audioBuffer p;
     _duration := _duration p; _sourceNode := _sourceNode p;
     _state := _state p; _onStateChange := _onStateChange p; _gainNode := v;
     _gainValue := _gainValue p; _loop := _loop p;
     _startOffset := _startOffset p; _endOffset := _endOffset p;
     _loopStart := _loopStart p; _loopEnd := _loopEnd p;
     _rateValue := _rateValue p |}.

Definition upd_gainValue (v : Q) (p : WebAudioPlayer)
  : WebAudioPlayer :=
  {| _ctx := _ctx p; _ctxStartTime := _ctxStartTime p;
     _lastCurrentTime := _lastCurrentTime p; _audioBuffer := _audioBuffer p;
     _duration := _duration p; _sourceNode := _sourceNode p;
     _state := _state p; _onStateChange := _onStateChange p;
     _gainNode := _gainNode p; _gainValue := v; _loop := _loop p;
     _startOffset := _startOffset p; _endOffset := _endOffset p;
     _loopStart := _loopStart p; _loopEnd := _loopEnd p;
     _rateValue := _rateValue p |}.

Definition upd_loop (v : bool) (p : WebAudioPlayer)
  : WebAudioPlayer :=
  {| _ctx := _ctx p; _ctxStartTime := _ctxStartTime p;
     _lastCurrentTime := _lastCurrentTime p; _audioBuffer := _audioBuffer p;
     _duration := _duration p; _sourceNode := _sourceNode p;
     _state := _state p; _onStateChange := _onStateChange p;
     _gainNode := _gainNode p; _gainValue := _gainValue p; _loop := v;
     _startOffset := _startOffset p; _endOffset := _endOffset p;
     _loopStart := _loopStart p; _loopEnd := _loopEnd p;
     _rateValue := _rateValue p |}.

Definition upd_startOffset (v : Q) (p : WebAudioPlayer)
  : WebAudioPlayer :=
  {| _ctx := _ctx p; _ctxStartTime := _ctxStartTime p;
     _lastCurrentTime := _lastCurrentTime p; _audioBuffer := _audioBuffer p;
     _duration := _duration p; _sourceNode := _sourceNode p;
     _state := _state p; _onStateChange := _onStateChange p;
     _gainNode := _gainNode p; _gainValue := _gainValue p; _loop := _loop p;
     _startOffset := v; _endOffset := _endOffset p;
     _loopStart := _loopStart p; _loopEnd := _loopEnd p;
     _rateValue := _rateValue p |}.

Definition upd_endOffset (v : Q) (p : WebAudioPlayer)
  : WebAudioPlayer :=
  {| _ctx := _ctx p; _ctxStartTime := _ctxStartTime p;
     _lastCurrentTime := _lastCurrentTime p; _audioBuffer := _audioBuffer p;
     _duration := _duration p; _sourceNode := _sourceNode p;
     _state := _state p; _onStateChange := _onStateChange p;
     _gainNode := _gainNode p; _gainValue := _gainValue p; _loop := _loop p;
     _startOffset := _startOffset p; _endOffset := v;
     _loopStart := _loopStart p; _loopEnd := _loopEnd p;
     _rateValue := _rateValue p |}.

Definition upd_loopStart (v : Q) (p : WebAudioPlayer)
  : WebAudioPlayer :=
  {| _ctx := _ctx p; _ctxStartTime := _ctxStartTime p;
     _lastCurrentTime := _lastCurrentTime p; _audioBuffer := _audioBuffer p;
     _duration := _duration p; _sourceNode := _sourceNode p;
     _state := _state p; _onStateChange := _onStateChange p;
     _gainNode := _gainNode p; _gainValue := _gainValue p; _loop := _loop p;
     _startOffset := _startOffset p; _endOffset := _endOffset p;
     _loopStart := v; _loopEnd := _loopEnd p; _rateValue := _rateValue p |}.

Definition upd_loopEnd (v : Q) (p : WebAudioPlayer)
  : WebAudioPlayer :=
  {| _ctx := _ctx p; _ctxStartTime := _ctxStartTime p;
     _lastCurrentTime := _lastCurrentTime p; _audioBuffer := _audioBuffer p;
     _duration := _duration p; _sourceNode := _sourceNode p;
     _state := _state p; _onStateChange := _onStateChange p;
     _gainNode := _gainNode p; _gainValue := _gainValue p; _loop := _loop p;
     _startOffset := _startOffset p; _endOffset := _endOffset p;
     _loopStart := _loopStart p; _loopEnd := v;
     _rateValue := _rateValue p |}.

Definition upd_rateValue (v : Q) (p : WebAudioPlayer)
  : WebAudioPlayer :=
  {| _ctx := _ctx p; _ctxStartTime := _ctxStartTime p;
     _lastCurrentTime := _lastCurrentTime p; _audioBuffer := _audioBuffer p;
     _duration := _duration p; _sourceNode := _sourceNode p;
     _state := _state p; _onStateChange := _onStateChange p;
     _gainNode := _gainNode p; _gainValue := _gainValue p; _loop := _loop p;
     _startOffset := _startOffset p; _endOffset := _endOffset p;
     _loopStart := _loopStart p; _loopEnd := _loopEnd p; _rateValue := v |}.

(* ------------------------------------------------------------------ *)
(** ** Methods as actions *)

(** A method body: the player after it and the effects it performed. *)
Definition Action : Type := WebAudioPlayer -> WebAudioPlayer * list Effect.

Definition skip : Action := fun p => (p, []).

Definition seq (a b : Action) : Action :=
  fun p => let (p1, e1) := a p in
           let (p2, e2) := b p1 in (p2, e1 ++ e2).

Definition assign (f : WebAudioPlayer -> WebAudioPlayer) : Action :=
  fun p => (f p, []).

Definition perform (e : Effect) : Action := fun p => (p, [e]).

Notation "a ;; b" := (seq a b) (at level 61, right associativity).

(** The player after an action, and its effects. *)
Definition after (a : Action) (p : WebAudioPlayer) : WebAudioPlayer := fst (a p).
Definition effects (a : Action) (p : WebAudioPlayer) : list Effect := snd (a p).

(** *** The audio context, as far as the player drives it *)

Definition ctx_request (r : CtxRequest) (k : Continuation) (c : AudioContext)
  : AudioContext :=
  {| ctx_state := ctx_state c; ctx_currentTime := ctx_currentTime c;
     ctx_nextNode := ctx_nextNode c;
     ctx_pending := ctx_pending c ++ [(r, k)] |}.

(** [this._ctx.resume()] with the continuation attached to its promise. *)
Definition ctx_resume (k : Continuation) : Action :=
  assign (fun p => upd_ctx (ctx_request ReqResume k (_ctx p)) p) ;;
  perform CtxResume.

(** [this._ctx.suspend()] with the continuation attached to its promise. *)
Definition ctx_suspend (k : Continuation) : Action :=
  assign (fun p => upd_ctx (ctx_request ReqSuspend k (_ctx p)) p) ;;
  perform CtxSuspend.

(** [this._ctx.close()]; the promise is dropped. *)
Definition ctx_close : Action :=
  assign (fun p => upd_ctx (ctx_request ReqClose K_none (_ctx p)) p) ;;
  perform CtxClose.

(** [this._ctx.createBufferSource()]: a node with a fresh identity. *)
Definition ctx_fresh (c : AudioContext) : AudioContext :=
  {| ctx_state := ctx_state c; ctx_currentTime := ctx_currentTime c;
     ctx_nextNode := S (ctx_nextNode c); ctx_pending := ctx_pending c |}.

(** *** Private methods *)

(** [_emitStateChange(state)] *)
Definition _emitStateChange (s : TPlayerState) : Action :=
  assign (upd_state s) ;;
  (fun p => match _onStateChange p with
            | Some cb => perform (OnStateChange cb (_state p)) p
            | None => skip p
            end).

(** [_destroySourceNode()] *)
Definition _destroySourceNode : Action :=
  fun p => match _sourceNode p with
           | Some n =>
               (perform (SourceDestroy (node_id n)) ;;
                assign (upd_sourceNode None)) p
           | None => skip p
           end.

(** [_onSourceNodeEnded], the listener of the node's 'ended' event. *)
Definition _onSourceNodeEnded : Action :=
  (fun p => if TPlayerState_eqb (_state p) St_running
            then assign (upd_lastCurrentTime (_endOffset p)) p
            else skip p) ;;
  _emitStateChange St_ended.

(** *** [play] *)

(** The validity tests of [play] (lines 183-197): the diagnostic of the
    first test that fails. *)
Definition play_check (p : WebAudioPlayer) : option Diagnostic :=
  if _loop p then
    if Qgt_bool (_startOffset p) (_loopEnd p)
    then Some loopEnd_not_greater_than_startOffset
    else if Qgt_bool (_loopStart p) (_loopEnd p)
    then Some loopEnd_not_greater_than_loopStart
    else None
  else if Qgt_bool (_startOffset p) (_endOffset p)
  then Some endOffset_not_greater_than_startOffset
  else None.

(** The same tests on every value a field of type number can hold:
    [setConfig] stores whatever has [typeof] ['number'], [NaN] included,
    and a comparison with [NaN] is false.  The record of the player holds
    finite values; on them [play_check] is [play_check_number]. *)
Inductive number : Type :=
| Finite (q : Q)
| NaN.

Definition number_gt (x y : number) : bool :=
  match x, y with
  | Finite a, Finite b => Qgt_bool a b
  | _, _ => false
  end.

Definition play_check_number
           (loop : bool) (startOffset endOffset loopStart loopEnd : number)
  : option Diagnostic :=
  if loop then
    if number_gt startOffset loopEnd
    then Some loopEnd_not_greater_than_startOffset
    else if number_gt loopStart loopEnd
    then Some loopEnd_not_greater_than_loopStart
    else None
  else if number_gt startOffset endOffset
  then Some endOffset_not_greater_than_startOffset
  else None.

(** Creation of the source node (lines 211-216 and 231-234). *)
Definition play_createSource (buf : AudioBuffer) : Action :=
  assign (fun p =>
    let node :=
      {| node_id := ctx_nextNode (_ctx p);
         node_buffer := buf;
         node_playbackRate := fround (_rateValue p);
         node_loop := _loop p;
         node_loopStart := if _loop p then _loopStart p else 0;
         node_loopEnd := if _loop p then _loopEnd p else 0 |} in
    upd_sourceNode (Some node) (upd_ctx (ctx_fresh (_ctx p)) p)).

(** Lazy creation of the gain node (lines 219-223). *)
Definition play_initGain : Action :=
  fun p => match _gainNode p with
           | Some _ => skip p
           | None =>
               (assign (upd_gainNode
                          (Some {| gain_value := fround (_gainValue p) |})) ;;
                perform (GainCreate (_gainValue p))) p
           end.

(** [start(when, offset, duration)] accepts its arguments when none is
    negative; otherwise it throws a [RangeError]. *)
Definition start_accepts (offset : Q) (dur : option Q) : bool :=
  Qle_bool 0 offset
  && match dur with Some d => Qle_bool 0 d | None => true end.

(** The duration [play] hands to [start]: none in loop mode,
    [parseFloat(Big(endOffset).minus(startOffset).valueOf())] otherwise. *)
Definition play_duration (loop : bool) (startOffset endOffset : Q) : option Q :=
  if loop then None
  else Some (parseFloat (Big.valueOf
               (Big.minus (Big.Big endOffset) startOffset))).

Arguments start_accepts : simpl never.
Arguments play_duration : simpl never.

(** [sourceNode.start(0, offset)] or [start(0, offset, duration)]
    (lines 231-239), then the statements [rest] of the method; when
    [start] throws, the exception leaves the method and [rest] does not
    run. *)
Definition play_start (rest : Action) : Action :=
  fun p =>
    match _sourceNode p with
    | None => rest p
    | Some n =>
        let duration :=
          play_duration (_loop p) (_startOffset p) (_endOffset p) in
        if start_accepts (_startOffset p) duration
        then (perform (SourceStart (node_id n) (_startOffset p) duration) ;;
              rest) p
        else perform (Throws RangeError) p
    end.

Definition play : Action :=
  fun p =>
    match _audioBuffer p with
    | None => perform (ConsoleError AudioBuffer_cannot_be_empty) p
    | Some buf =>
        match play_check p with
        | Some d => perform (ConsoleError d) p
        | None =>
            if TPlayerState_eqb (_state p) St_paused
            then ctx_resume K_play_resumed p
            else
              (_destroySourceNode ;;
               play_createSource buf ;;
               play_initGain ;;
               assign (fun q => upd_ctxStartTime (ctx_currentTime (_ctx q)) q) ;;
               play_start (_emitStateChange St_running)) p
        end
    end.

(** *** [currentTime], [pause], [stop] *)

(** The getter [currentTime].  [None] stands for the exception [big.js]
    throws on a zero divisor. *)
Definition currentTime (p : WebAudioPlayer) : option Q :=
  if TPlayerState_eqb (_state p) St_running then
    let currentTime := ctx_currentTime (_ctx p) in
    if _loop p then
      let startOffsetGap :=
        parseFloat (Big.valueOf
          (Big.minus (Big.Big (_loopStart p)) (_startOffset p))) in
      let loopGap :=
        parseFloat (Big.valueOf
          (Big.minus (Big.Big (_loopEnd p)) (_loopStart p))) in
      match
        Big.mod_
          (Big.minus
             (Big.times (Big.minus (Big.Big currentTime) (_ctxStartTime p))
                        (_rateValue p))
             startOffsetGap)
          (js_or loopGap 1)
      with
      | Some r => Some (parseFloat (Big.valueOf (Big.plus r (_loopStart p))))
      | None => None
      end
    else
      Some (parseFloat (Big.valueOf
        (Big.plus
           (Big.times (Big.minus (Big.Big currentTime) (_ctxStartTime p))
                      (_rateValue p))
           (_startOffset p))))
  else Some (_lastCurrentTime p).

(** The statements of [pause] after [await this._ctx.suspend()]. *)
Definition pause_suspended : Action :=
  fun p => match currentTime p with
           | Some t =>
               (assign (upd_lastCurrentTime t) ;; _emitStateChange St_paused) p
           | None => skip p
           end.

(** [pause()] up to its [await]. *)
Definition pause : Action :=
  fun p => if TPlayerState_eqb (_state p) St_running
           then ctx_suspend K_pause_suspended p
           else skip p.

Definition stop : Action :=
  fun p => match _sourceNode p with
           | Some _ =>
               (_destroySourceNode ;;
                assign (fun q => upd_lastCurrentTime (_startOffset q) q) ;;
                _emitStateChange St_stop) p
           | None => skip p
           end.

(** *** Properties and [setConfig] *)

(** The setter [audioBuffer]. *)
Definition set_audioBuffer (v : AudioBuffer) : Action :=
  assign (upd_audioBuffer (Some v)) ;;
  assign (upd_duration (duration v)) ;;
  assign (upd_startOffset 0) ;;
  assign (fun p => upd_endOffset (_duration p) p) ;;
  assign (upd_loopStart 0) ;;
  assign (fun p => upd_loopEnd (_duration p) p).

(** The field assignments of [setConfig] (lines 334-377): the player
    after them, their effects, and the value of [needRestart]. *)
Definition setConfig_fields (v : IPlayerConfig) (p0 : WebAudioPlayer)
  : WebAudioPlayer * list Effect * bool :=
  let needRestart := false in
  let (p1, e1) :=
    match as_number (gainValue v) with
    | Some g =>
        let q := upd_gainValue g p0 in
        match _gainNode q with
        | Some _ =>
            (upd_gainNode (Some {| gain_value := fround g |}) q, [GainSet g])
        | None => (q, [])
        end
    | None => (p0, [])
    end in
  let (p2, needRestart) :=
    match as_number (rateValue v) with
    | Some r => (upd_rateValue r p1, true)
    | None => (p1, needRestart)
    end in
  let (p3, needRestart) :=
    match as_boolean (loop v) with
    | Some b => (upd_loop b p2, true)
    | None => (p2, needRestart)
    end in
  let (p4, needRestart) :=
    match as_number (startOffset v) with
    | Some x => (upd_startOffset x p3, true)
    | None => (p3, needRestart)
    end in
  let (p5, needRestart) :=
    match as_number (endOffset v) with
    | Some x =>
        let q := upd_endOffset x p4 in
        (q, if negb (_loop q) then true else needRestart)
    | None => (p4, needRestart)
    end in
  let (p6, needRestart) :=
    match as_number (loopStart v) with
    | Some x => (upd_loopStart x p5, true)
    | None => (p5, needRestart)
    end in
  let (p7, needRestart) :=
    match as_number (loopEnd v) with
    | Some x => (upd_loopEnd x p6, true)
    | None => (p6, needRestart)
    end in
  (p7, e1, needRestart).

(** The restart of [setConfig] (lines 379-390). *)
Definition setConfig_restart : Action :=
  fun p =>
    let currentState := _state p in
    (stop ;;
     (fun q => if TPlayerState_eqb currentState St_running
               then play q else skip q)) p.

Definition setConfig (v : IPlayerConfig) : Action :=
  fun p0 =>
    let '(p, e, needRestart) := setConfig_fields v p0 in
    if needRestart
    then let (p', e') := setConfig_restart p in (p', e ++ e')
    else (p, e).

Definition getConfig (p : WebAudioPlayer) : IPlayerConfig :=
  {| loop := JsBoolean (_loop p);
     gainValue := JsNumber (_gainValue p);
     rateValue := JsNumber (_rateValue p);
     startOffset := JsNumber (_startOffset p);
     endOffset := JsNumber (_endOffset p);
     loopStart := JsNumber (_loopStart p);
     loopEnd := JsNumber (_loopEnd p) |}.

(** The getter [state]. *)
Definition state (p : WebAudioPlayer) : TPlayerState := _state p.

(** The setter [onStateChange]. *)
Definition set_onStateChange (v : option TOnStateChange) : Action :=
  assign (upd_onStateChange v).

(** [destroy()]: both statements run before the returned promise. *)
Definition destroy : Action := _destroySourceNode ;; ctx_close.

(** [new WebAudioPlayer()] on the context the browser hands out; the
    field initialisers of the class, then the constructor body. *)
Definition new_WebAudioPlayer (c : AudioContext) : WebAudioPlayer * list Effect :=
  let p :=
    {| _ctx := c; _ctxStartTime := 0; _lastCurrentTime := 0;
       _audioBuffer := None; _duration := 0; _sourceNode := None;
       _state := St_stop; _onStateChange := None; _gainNode := None;
       _gainValue := 1; _loop := false; _startOffset := 0; _endOffset := 0;
       _loopStart := 0; _loopEnd := 0; _rateValue := 1 |} in
  match ctx_state c with
  | Ctx_suspended => ctx_resume K_none p
  | _ => skip p
  end.

(** *** The environment: the clock and the promises of the context *)

(** The hardware clock advances by [d] seconds while the context runs. *)
Definition ctx_advance (d : Q) (p : WebAudioPlayer) : WebAudioPlayer :=
  let c := _ctx p in
  match ctx_state c with
  | Ctx_running =>
      upd_ctx {| ctx_state := ctx_state c;
                 ctx_currentTime := ctx_currentTime c + d;
                 ctx_nextNode := ctx_nextNode c;
                 ctx_pending := ctx_pending c |} p
  | _ => p
  end.

Definition run_continuation (k : Continuation) : Action :=
  match k with
  | K_none => skip
  | K_play_resumed => _emitStateChange St_running
  | K_pause_suspended => pause_suspended
  end.

(** The oldest pending promise of the context settles.  On a closed
    context it rejects and the continuation is not run; otherwise the
    context takes the requested state and the continuation runs. *)
Definition ctx_settle : Action :=
  fun p =>
    let c := _ctx p in
    match ctx_pending c with
    | [] => skip p
    | (r, k) :: rest =>
        let settled s :=
          upd_ctx {| ctx_state := s; ctx_currentTime := ctx_currentTime c;
                     ctx_nextNode := ctx_nextNode c; ctx_pending := rest |} p in
        match ctx_state c with
        | Ctx_closed => skip (settled Ctx_closed)
        | _ =>
            match r with
            | ReqResume => run_continuation k (settled Ctx_running)
            | ReqSuspend => run_continuation k (settled Ctx_suspended)
            | ReqClose => run_continuation k (settled Ctx_closed)
            end
        end
    end.

(* ------------------------------------------------------------------ *)
(** ** The buffer loaders *)

Module Loader.

(** The raw bytes of a response or of a file. *)
Definition ArrayBuffer : Type := list N.

(** The promise a loader returns. *)
Inductive PromiseState : Type :=
| Pending
| Fulfilled (audioBuffer : AudioBuffer)
| Rejected.

(** [resolve] and [reject] settle a promise once. *)
Definition resolve (b : AudioBuffer) (s : PromiseState) : PromiseState :=
  match s with Pending => Fulfilled b | _ => s end.

Definition reject (s : PromiseState) : PromiseState :=
  match s with Pending => Rejected | _ => s end.

Section Decoder.

(** The browser's decoder: [None] when the bytes are not audio the
    browser can decode. *)
Variable decode : ArrayBuffer -> option AudioBuffer.

(** [ctx.decodeAudioData(arrayBuffer, successCallback)]: the success
    callback is the only one given, and the promise the call returns is
    dropped; on a failure no callback runs. *)
Definition decodeAudioData (arrayBuffer : ArrayBuffer)
           (successCallback : AudioBuffer -> PromiseState -> PromiseState)
  : PromiseState -> PromiseState :=
  match decode arrayBuffer with
  | Some audioBuffer => successCallback audioBuffer
  | None => fun s => s
  end.

(** The events of the [XMLHttpRequest] the loader listens to. *)
Inductive XhrEvent : Type :=
| Xhr_loadstart
| Xhr_progress (loaded total : N)
| Xhr_load (response : ArrayBuffer)
| Xhr_error.

(** The listeners [loadAudioFromUrl] installs, on the promise. *)
Definition loadAudioFromUrl_on (ev : XhrEvent) : PromiseState -> PromiseState :=
  match ev with
  | Xhr_loadstart => fun s => s
  | Xhr_progress _ _ => fun s => s
  | Xhr_load response => decodeAudioData response resolve
  | Xhr_error => reject
  end.

(** The promise [loadAudioFromUrl] returned, after the events of its
    request. *)
Definition loadAudioFromUrl (events : list XhrEvent) : PromiseState :=
  fold_left (fun s ev => loadAudioFromUrl_on ev s) events Pending.

(** [fileReader.result] at [loadend]: the bytes, a string, or [null]
    when the read failed. *)
Inductive ReaderResult : Type :=
| Result_arrayBuffer (bytes : ArrayBuffer)
| Result_string
| Result_null.

(** The [onloadend] listener of [loadAudioFromFile], on the promise. *)
Definition loadAudioFromFile_onloadend (result : ReaderResult)
  : PromiseState -> PromiseState :=
  match result with
  | Result_arrayBuffer arrayBuffer => decodeAudioData arrayBuffer resolve
  | _ => fun s => s
  end.

(** The promise [loadAudioFromFile] returned, once the reader ended. *)
Definition loadAudioFromFile (result : ReaderResult) : PromiseState :=
  loadAudioFromFile_onloadend result Pending.

(** An event that cannot settle the promise: anything but an error of
    the request or a load of bytes the decoder accepts. *)
Definition no_settlement (ev : XhrEvent) : Prop :=
  match ev with
  | Xhr_load response => decode response = None
  | Xhr_error => False
  | _ => True
  end.

End Decoder.

(** A decoder that accepts the bytes that start with "RIFF". *)
Definition decode_riff (bytes : ArrayBuffer) : option AudioBuffer :=
  match bytes with
  | 82 :: 73 :: 70 :: 70 :: _ => Some {| buffer_id := 0; duration := 30 |}
  | _ => None
  end%N.

End Loader.

(* ------------------------------------------------------------------ *)
(** ** Sessions: calls of a client interleaved with the environment *)

(** Every command is a call of its own, from the code of the client or
    from the event loop: an exception thrown by one call ends that call
    only. *)

Inductive Command : Type :=
| Call_play
| Call_pause
| Call_stop
| Call_destroy
| Call_setConfig (v : IPlayerConfig)
| Set_audioBuffer (v : AudioBuffer)
| Set_onStateChange (v : option TOnStateChange)
| Env_advance (d : Q)     (* the hardware clock advances *)
| Env_settle              (* the oldest pending promise of the context settles *)
| Env_ended.              (* the 'ended' event of the source node is dispatched *)

(** The 'ended' event reaches [_onSourceNodeEnded] while the listener is
    attached, that is while the player holds the node. *)
Definition dispatch_ended : Action :=
  fun p => match _sourceNode p with
           | Some _ => _onSourceNodeEnded p
           | None => skip p
           end.

Definition exec (c : Command) : Action :=
  match c with
  | Call_play => play
  | Call_pause => pause
  | Call_stop => stop
  | Call_destroy => destroy
  | Call_setConfig v => setConfig v
  | Set_audioBuffer v => set_audioBuffer v
  | Set_onStateChange v => set_onStateChange v
  | Env_advance d => assign (ctx_advance d)
  | Env_settle => ctx_settle
  | Env_ended => dispatch_ended
  end.

Fixpoint run (cs : list Command) : Action :=
  match cs with
  | [] => skip
  | c :: cs' => exec c ;; run cs'
  end.

(** A session: a new player on a running context whose clock reads [t0],
    then the commands. *)
Definition session (t0 : Q) (cs : list Command) : WebAudioPlayer :=
  after (run cs)
        (fst (new_WebAudioPlayer
                {| ctx_state := Ctx_running; ctx_currentTime := t0;
                   ctx_nextNode := 0; ctx_pending := [] |})).

(** The object [{}] and the partial configurations of the scenarios. *)
Definition cfg_empty : IPlayerConfig :=
  {| loop := JsUndefined; startOffset := JsUndefined; endOffset := JsUndefined;
     loopStart := JsUndefined; loopEnd := JsUndefined;
     rateValue := JsUndefined; gainValue := JsUndefined |}.

(** [{ gainValue: g }] *)
Definition cfg_gain (g : Q) : IPlayerConfig :=
  {| loop := JsUndefined; startOffset := JsUndefined; endOffset := JsUndefined;
     loopStart := JsUndefined; loopEnd := JsUndefined;
     rateValue := JsUndefined; gainValue := JsNumber g |}.

(** [{ rateValue: r }] *)
Definition cfg_rate (r : Q) : IPlayerConfig :=
  {| loop := JsUndefined; startOffset := JsUndefined; endOffset := JsUndefined;
     loopStart := JsUndefined; loopEnd := JsUndefined;
     rateValue := JsNumber r; gainValue := JsUndefined |}.

(** [{ startOffset: x }] *)
Definition cfg_startOffset (x : Q) : IPlayerConfig :=
  {| loop := JsUndefined; startOffset := JsNumber x; endOffset := JsUndefined;
     loopStart := JsUndefined; loopEnd := JsUndefined;
     rateValue := JsUndefined; gainValue := JsUndefined |}.

(** [{ endOffset: x }] *)
Definition cfg_endOffset (x : Q) : IPlayerConfig :=
  {| loop := JsUndefined; startOffset := JsUndefined; endOffset := JsNumber x;
     loopStart := JsUndefined; loopEnd := JsUndefined;
     rateValue := JsUndefined; gainValue := JsUndefined |}.

(** [{ loop: true, startOffset: 10, loopStart: 15, loopEnd: 25 }] *)
Definition cfg_loop_10_15_25 : IPlayerConfig :=
  {| loop := JsBoolean true; startOffset := JsNumber 10;
     endOffset := JsUndefined; loopStart := JsNumber 15; loopEnd := JsNumber 25;
     rateValue := JsUndefined; gainValue := JsUndefined |}.

(** [{ loop: false, startOffset: 10, endOffset: 20 }] *)
Definition cfg_range_10_20 : IPlayerConfig :=
  {| loop := JsBoolean false; startOffset := JsNumber 10;
     endOffset := JsNumber 20; loopStart := JsUndefined; loopEnd := JsUndefined;
     rateValue := JsUndefined; gainValue := JsUndefined |}.

(** [{ loop: true, startOffset: 30, loopEnd: 20 }] *)
Definition cfg_loop_30_20 : IPlayerConfig :=
  {| loop := JsBoolean true; startOffset := JsNumber 30;
     endOffset := JsUndefined; loopStart := JsUndefined; loopEnd := JsNumber 20;
     rateValue := JsUndefined; gainValue := JsUndefined |}.

(** A decoded buffer of 30 seconds. *)
Definition buffer_30s : AudioBuffer := {| buffer_id := 0; duration := 30 |}.

(** The players of the scenarios. *)

(** Ranged playback from 10 to 20, just started. *)
Definition player_ranged_running : WebAudioPlayer :=
  session 0 [Set_audioBuffer buffer_30s; Call_setConfig cfg_range_10_20;
             Call_play].

(** Looped playback from 10, looping on 15..25, just started. *)
Definition player_loop_running : WebAudioPlayer :=
  session 0 [Set_audioBuffer buffer_30s; Call_setConfig cfg_loop_10_15_25;
             Call_play].

(** Ranged playback paused as the end is reached: the suspension has
    completed, the node is still held. *)
Definition player_paused : WebAudioPlayer :=
  session 0 [Set_audioBuffer buffer_30s; Call_setConfig cfg_range_10_20;
             Call_play; Env_advance 10; Call_pause; Env_settle].

(** A new player whose [startOffset] was set to 10: never played. *)
Definition player_offset_10 : WebAudioPlayer :=
  session 0 [Call_setConfig (cfg_startOffset 10)].

(* ------------------------------------------------------------------ *)
(** ** The classification of a partial configuration, as specified *)

Definition is_number (v : JsValue) : bool :=
  match as_number v with Some _ => true | None => false end.

Definition is_boolean (v : JsValue) : bool :=
  match as_boolean v with Some _ => true | None => false end.

(** Restart-required: [rate], [loop], [startOffset], [loopStart],
    [loopEnd], and [endOffset] only when not looping.  [looping] is the
    loop flag of the player when [setConfig] is called. *)
Definition restart_required (looping : bool) (v : IPlayerConfig) : bool :=
  is_number (rateValue v) || is_boolean (loop v)
  || is_number (startOffset v) || is_number (loopStart v)
  || is_number (loopEnd v)
  || (is_number (endOffset v) && negb looping).

(* ------------------------------------------------------------------ *)
(** ** The position formulas, as the specification words them *)

(** The remainder of the division truncated toward zero (the sign of the
    dividend, as JavaScript's [%]): the [mod] of the position formula. *)
Definition Qrem (x y : Q) : Q := x - inject_Z (Qtrunc (x / y)) * y.

(** Distance from the play-start point to the start of the loop region. *)
Definition gapToLoop (startOffset loopStart : Q) : Q := loopStart - startOffset.

(** Length of the loop region, 1 when the region is degenerate. *)
Definition loopSpan (loopStart loopEnd : Q) : Q :=
  if Qeq_bool (loopEnd - loopStart) 0 then 1 else loopEnd - loopStart.

Definition position_loop (clockNow clockAtStart rate startOffset loopStart loopEnd : Q) : Q :=
  Qrem ((clockNow - clockAtStart) * rate - gapToLoop startOffset loopStart)
       (loopSpan loopStart loopEnd)
  + loopStart.

Definition position_ranged (clockNow clockAtStart rate startOffset : Q) : Q :=
  (clockNow - clockAtStart) * rate + startOffset.

(** The same formulas with the roundings of the code: the gap, the span
    and the result are each the double nearest to the exact value. *)
Definition gapToLoop_rounded (startOffset loopStart : Q) : Q :=
  parseFloat (loopStart - startOffset).

Definition loopSpan_rounded (loopStart loopEnd : Q) : Q :=
  if Qeq_bool (parseFloat (loopEnd - loopStart)) 0 then 1
  else parseFloat (loopEnd - loopStart).

Definition position_loop_rounded
           (clockNow clockAtStart rate startOffset loopStart loopEnd : Q) : Q :=
  parseFloat
    (Qrem ((clockNow - clockAtStart) * rate
           - gapToLoop_rounded startOffset loopStart)
          (loopSpan_rounded loopStart loopEnd)
     + loopStart).

Definition position_ranged_rounded
           (clockNow clockAtStart rate startOffset : Q) : Q :=
  parseFloat (position_ranged clockNow clockAtStart rate startOffset).

(** The ordering invariants of a configuration. *)
Definition valid_config (p : WebAudioPlayer) : Prop :=
  if _loop p
  then _startOffset p <= _loopEnd p /\ _loopStart p <= _loopEnd p
  else _startOffset p <= _endOffset p.

(** The ordering invariants on every value of type number: [x <= y] is
    false when an operand is [NaN]. *)
Definition number_le (x y : number) : bool :=
  match x, y with
  | Finite a, Finite b => Qle_bool a b
  | _, _ => false
  end.

Definition valid_config_number
           (loop : bool) (startOffset endOffset loopStart loopEnd : number)
  : bool :=
  if loop
  then number_le startOffset loopEnd && number_le loopStart loopEnd
  else number_le startOffset endOffset.

(* ------------------------------------------------------------------ *)
(** ** Properties of the transport as they are specified *)



(** "The completion notification only has effect if the state is still
    running at fire time": then it freezes the position to [endOffset] and
    the state becomes ended; otherwise state and frozen position keep their
    values. *)
Definition ended_only_when_running (p : WebAudioPlayer) : Prop :=
  (_state p = St_running ->
   _lastCurrentTime (after _onSourceNodeEnded p) = _endOffset p
   /\ _state (after _onSourceNodeEnded p) = St_ended)
  /\ (_state p <> St_running ->
      _state (after _onSourceNodeEnded p) = _state p
      /\ _lastCurrentTime (after _onSourceNodeEnded p) = _lastCurrentTime p).


(** "In loop mode [currentTime] returns
    [((clockNow - clockAtStart) * rate - gapToLoop) mod loopSpan + loopStart]",
    as a number. *)
Definition loop_position_exact (p : WebAudioPlayer) : Prop :=
  exists t,
    currentTime p = Some t
    /\ t == position_loop (ctx_currentTime (_ctx p)) (_ctxStartTime p)
              (_rateValue p) (_startOffset p) (_loopStart p) (_loopEnd p).

(** "Without loop [currentTime] returns
    [(clockNow - clockAtStart) * rate + startOffset]", as a number. *)
Definition ranged_position_exact (p : WebAudioPlayer) : Prop :=
  exists t,
    currentTime p = Some t
    /\ t == position_ranged (ctx_currentTime (_ctx p)) (_ctxStartTime p)
              (_rateValue p) (_startOffset p).


(** The loop 1.1 .. 3.3000000000000003 played from 1.1, read after 2.2
    seconds. *)
Definition player_loop_rounding : WebAudioPlayer :=
  session 0 [Set_audioBuffer buffer_30s;
             Call_setConfig
               {| loop := JsBoolean true; startOffset := JsNumber 1.1;
                  endOffset := JsUndefined; loopStart := JsNumber 1.1;
                  loopEnd := JsNumber 3.3000000000000003;
                  rateValue := JsUndefined; gainValue := JsUndefined |};
             Call_play; Env_advance 2.2].

(** The ranged scenario read after one render quantum of 128 frames at
    48 kHz. *)
Definition player_ranged_rounding : WebAudioPlayer :=
  session 0 [Set_audioBuffer buffer_30s; Call_setConfig cfg_range_10_20;
             Call_play; Env_advance 0.0026666666666666666].

(** The notification [_emitStateChange] hands to the subscriber. *)
Definition notification (p : WebAudioPlayer) (s : TPlayerState) : list Effect :=
  match _onStateChange p with
  | Some cb => [OnStateChange cb s]
  | None => []
  end.


(** The player after the field assignments of [setConfig], and their
    effects. *)
Definition configured (v : IPlayerConfig) (p : WebAudioPlayer) : WebAudioPlayer :=
  fst (fst (setConfig_fields v p)).

Definition hot_effects (v : IPlayerConfig) (p : WebAudioPlayer) : list Effect :=
  snd (fst (setConfig_fields v p)).


(* ------------------------------------------------------------------ *)
(** ** Further definitions: getters, merges and invariants *)

(** The getter [duration]. *)
Definition get_duration (p : WebAudioPlayer) : Q := _duration p.

(** A field of a partial configuration laid over the field of a snapshot:
    the new value when it is present and of the expected type. *)
Definition merge_number (new old : JsValue) : JsValue :=
  match as_number new with Some x => JsNumber x | None => old end.

Definition merge_boolean (new old : JsValue) : JsValue :=
  match as_boolean new with Some b => JsBoolean b | None => old end.

(** The partial configuration [v] laid over the snapshot [old]. *)
Definition config_merge (v old : IPlayerConfig) : IPlayerConfig :=
  {| loop := merge_boolean (loop v) (loop old);
     startOffset := merge_number (startOffset v) (startOffset old);
     endOffset := merge_number (endOffset v) (endOffset old);
     loopStart := merge_number (loopStart v) (loopStart old);
     loopEnd := merge_number (loopEnd v) (loopEnd old);
     rateValue := merge_number (rateValue v) (rateValue old);
     gainValue := merge_number (gainValue v) (gainValue old) |}.

(** No field of [v] is present with the expected type. *)
Definition no_field (v : IPlayerConfig) : bool :=
  negb (is_number (gainValue v) || is_number (rateValue v)
        || is_boolean (loop v) || is_number (startOffset v)
        || is_number (endOffset v) || is_number (loopStart v)
        || is_number (loopEnd v)).

(** Equality of positions, up to the representation of the rational. *)
Definition same_position (a b : option Q) : Prop :=
  match a, b with
  | Some x, Some y => x == y
  | None, None => True
  | _, _ => False
  end.




(** The context of [p] after its only pending request settled to [s]. *)
Definition settled_ctx (s : AudioContextState) (p : WebAudioPlayer)
  : AudioContext :=
  {| ctx_state := s; ctx_currentTime := ctx_currentTime (_ctx p);
     ctx_nextNode := ctx_nextNode (_ctx p); ctx_pending := [] |}.

(** An action tells the subscriber [cb] the state it leaves, unless it
    leaves the state it found; it keeps the subscriber. *)
Definition notifies (a : Action) : Prop :=
  forall p cb,
    _onStateChange p = Some cb ->
    _onStateChange (after a p) = Some cb
    /\ (_state (after a p) = _state p
        \/ In (OnStateChange cb (_state (after a p))) (effects a p)).

(* ------------------------------------------------------------------ *)
(** ** Tactics *)

(** Opening a player into its fields lets the methods compute. *)
Ltac open_player p :=
  let c := fresh "c" in
  let sn := fresh "sn" in
  let st := fresh "st" in
  let cb := fresh "cb" in
  let gn := fresh "gn" in
  let ab := fresh "ab" in
  let lp := fresh "lp" in
  destruct p as [c ? ? ab ? sn st cb gn ? lp ? ? ? ? ?].

Ltac unfold_actions :=
  unfold after, effects, stop, destroy, pause, _destroySourceNode,
    _emitStateChange, _onSourceNodeEnded, ctx_close, ctx_resume, ctx_suspend,
    seq, assign, perform, skip in *.

Ltac case_fields v :=
  destruct (as_number (gainValue v)),
           (as_number (rateValue v)),
           (as_boolean (loop v)),
           (as_number (startOffset v)),
           (as_number (endOffset v)),
           (as_number (loopStart v)),
           (as_number (loopEnd v)).

(** Case analysis on whether [start] accepts its arguments. *)
Ltac case_start :=
  match goal with
  | |- context [start_accepts ?o ?d] => destruct (start_accepts o d)
  end.

(* ------------------------------------------------------------------ *)
(** ** Arithmetic of the remainder *)

Lemma Qgt_bool_true (x y : Q) : Qgt_bool x y = true <-> y < x.
Proof.
  unfold Qgt_bool. rewrite negb_true_iff.
  split; intro H.
  - apply Qnot_le_lt. intro Hle. apply Qle_bool_iff in Hle. congruence.
  - destruct (Qle_bool x y) eqn:E; [|reflexivity].
    apply Qle_bool_iff in E. exfalso. exact (Qlt_not_le _ _ H E).
Qed.

Lemma Qgt_bool_false (x y : Q) : Qgt_bool x y = false <-> x <= y.
Proof.
  unfold Qgt_bool. rewrite negb_false_iff. apply Qle_bool_iff.
Qed.

Lemma Qtrunc_opp (x : Q) : Qtrunc (- x) = (- Qtrunc x)%Z.
Proof.
  unfold Qtrunc. destruct x as [n d]. simpl.
  apply Z.quot_opp_l. discriminate.
Qed.

Lemma Qtrunc_nonneg (x : Q) : 0 <= x -> Qtrunc x = Qfloor x.
Proof.
  destruct x as [n d]. unfold Qle, Qtrunc, Qfloor. simpl. intro H.
  apply Z.quot_div_nonneg; lia.
Qed.

Lemma Qtrunc_nonpos (x : Q) : x <= 0 -> Qtrunc x = (- Qfloor (- x))%Z.
Proof.
  intro H.
  assert (H0 : 0 <= - x) by (apply (Qopp_le_compat x 0) in H; exact H).
  rewrite <- (Qtrunc_nonneg _ H0), Qtrunc_opp. lia.
Qed.

#[export] Instance Qtrunc_comp : Proper (Qeq ==> eq) Qtrunc.
Proof.
  intros x y E.
  destruct (Qlt_le_dec x 0) as [Hneg | Hpos].
  - assert (Hx : x <= 0) by (apply Qlt_le_weak; exact Hneg).
    assert (Hy : y <= 0) by (rewrite <- E; exact Hx).
    rewrite (Qtrunc_nonpos _ Hx), (Qtrunc_nonpos _ Hy).
    f_equal. apply Qfloor_comp. rewrite E. reflexivity.
  - assert (Hy : 0 <= y) by (rewrite <- E; exact Hpos).
    rewrite (Qtrunc_nonneg _ Hpos), (Qtrunc_nonneg _ Hy).
    apply Qfloor_comp. exact E.
Qed.

#[export] Instance Qrem_comp : Proper (Qeq ==> Qeq ==> Qeq) Qrem.
Proof.
  intros x x' Ex y y' Ey. unfold Qrem.
  assert (E : Qtrunc (x / y) = Qtrunc (x' / y'))
    by (apply Qtrunc_comp; rewrite Ex, Ey; reflexivity).
  rewrite E, Ex, Ey. reflexivity.
Qed.

Lemma Qtrunc_small (x : Q) : Qabs x < 1 -> Qtrunc x = 0%Z.
Proof.
  destruct x as [n d]. unfold Qabs, Qlt, Qtrunc. simpl. intro H.
  destruct (Z_le_gt_dec 0 n) as [Hn | Hn].
  - apply Z.quot_small. lia.
  - replace n with (- (- n))%Z by lia.
    rewrite Z.quot_opp_l by discriminate.
    rewrite Z.quot_small; lia.
Qed.

Lemma Qabs_div_small (x y : Q) : Qabs x < Qabs y -> Qabs (x / y) < 1.
Proof.
  intro H.
  assert (Hy : 0 < Qabs y)
    by (apply Qle_lt_trans with (Qabs x); [apply Qabs_nonneg | exact H]).
  unfold Qdiv. rewrite Qabs_Qmult, Qabs_Qinv.
  apply Qlt_shift_div_r; [exact Hy|].
  rewrite Qmult_1_l. exact H.
Qed.

(** [big.js]'s [mod] is the truncated remainder; it only throws on a zero
    divisor. *)
Lemma Big_mod_Qrem (x y : Q) :
  ~ y == 0 -> exists r, Big.mod_ x y = Some r /\ r == Qrem x y.
Proof.
  intro Hy. unfold Big.mod_.
  destruct (Qeq_bool y 0) eqn:E0.
  - apply Qeq_bool_eq in E0. contradiction.
  - destruct (Qgt_bool (Qabs y) (Qabs x)) eqn:Egt.
    + exists x. split; [reflexivity|].
      apply Qgt_bool_true in Egt.
      unfold Qrem. rewrite (Qtrunc_small _ (Qabs_div_small _ _ Egt)).
      ring.
    + eexists. split; [reflexivity|].
      unfold Qrem, Big.minus, Big.times, Big.div_DP0_RM0. reflexivity.
Qed.

Lemma Big_mod_zero (x y : Q) : y == 0 -> Big.mod_ x y = None.
Proof.
  intro Hy. unfold Big.mod_. rewrite (Qeq_eq_bool _ _ Hy). reflexivity.
Qed.

Lemma js_or_1_nonzero (a : Q) : ~ js_or a 1 == 0.
Proof.
  unfold js_or. destruct (Qeq_bool a 0) eqn:E.
  - discriminate.
  - apply Qeq_bool_neq. exact E.
Qed.

(** On a non-negative dividend and a positive divisor the remainder lies in
    [[0, y)]. *)
Lemma Qrem_range (x y : Q) : 0 <= x -> 0 < y -> 0 <= Qrem x y /\ Qrem x y < y.
Proof.
  intros Hx Hy.
  assert (Hq : 0 <= x / y).
  { apply Qle_shift_div_l; [exact Hy|]. rewrite Qmult_0_l. exact Hx. }
  assert (Hxy : x == (x / y) * y) by (field; intro E; rewrite E in Hy; discriminate).
  unfold Qrem. rewrite (Qtrunc_nonneg _ Hq).
  pose proof (Qfloor_le (x / y)) as Hlo.
  pose proof (Qlt_floor (x / y)) as Hhi.
  set (k := Qfloor (x / y)) in *.
  assert (Hlo' : inject_Z k * y <= x / y * y).
  { apply Qmult_le_compat_r; [exact Hlo|]. apply Qlt_le_weak. exact Hy. }
  assert (Hhi' : x / y * y < inject_Z (k + 1) * y).
  { apply Qmult_lt_compat_r; [exact Hy | exact Hhi]. }
  rewrite <- Hxy in Hlo', Hhi'.
  rewrite inject_Z_plus in Hhi'.
  split.
  - apply (Qplus_le_l _ _ (inject_Z k * y)). ring_simplify. exact Hlo'.
  - apply (Qplus_lt_l _ _ (inject_Z k * y)). ring_simplify.
    ring_simplify in Hhi'. exact Hhi'.
Qed.

#[export] Instance loopSpan_comp : Proper (Qeq ==> Qeq ==> Qeq) loopSpan.
Proof.
  intros a a' Ea b b' Eb. unfold loopSpan.
  assert (E : Qeq_bool (b - a) 0 = Qeq_bool (b' - a') 0)
    by (apply Qeqb_comp; [rewrite Ea, Eb|]; reflexivity).
  rewrite E. destruct (Qeq_bool (b' - a') 0); [reflexivity|].
  rewrite Ea, Eb. reflexivity.
Qed.

Lemma position_loop_comp (n n' s s' r r' so so' ls ls' le le' : Q) :
  n - s == n' - s' -> r == r' -> so == so' -> ls == ls' -> le == le' ->
  position_loop n s r so ls le == position_loop n' s' r' so' ls' le'.
Proof.
  intros En Er Eso Els Ele. unfold position_loop, gapToLoop.
  rewrite En, Er, Eso, Els, Ele. reflexivity.
Qed.

Lemma loopSpan_js_or (ls le : Q) : js_or (le - ls) 1 = loopSpan ls le.
Proof. reflexivity. Qed.

Lemma play_check_valid (p : WebAudioPlayer) :
  play_check p = None <-> valid_config p.
Proof.
  unfold play_check, valid_config.
  destruct (_loop p).
  - destruct (Qgt_bool (_startOffset p) (_loopEnd p)) eqn:E1.
    + apply Qgt_bool_true in E1. split; [discriminate|].
      intros [H _]. exfalso. exact (Qlt_not_le _ _ E1 H).
    + apply Qgt_bool_false in E1.
      destruct (Qgt_bool (_loopStart p) (_loopEnd p)) eqn:E2.
      * apply Qgt_bool_true in E2. split; [discriminate|].
        intros [_ H]. exfalso. exact (Qlt_not_le _ _ E2 H).
      * apply Qgt_bool_false in E2. split; auto.
  - destruct (Qgt_bool (_startOffset p) (_endOffset p)) eqn:E1.
    + apply Qgt_bool_true in E1. split; [discriminate|].
      intro H. exfalso. exact (Qlt_not_le _ _ E1 H).
    + apply Qgt_bool_false in E1. split; auto.
Qed.

(** *** Rounding keeps the sign *)

Lemma Qpow_pos (b : positive) (e : Z) : 0 < Qpow b e.
Proof. destruct e; reflexivity. Qed.

Lemma Qfloor_nonneg (x : Q) : 0 <= x -> (0 <= Qfloor x)%Z.
Proof. intro H. apply (Qfloor_resp_le 0 x H). Qed.

Lemma round_half_even_nonneg (r : Q) : 0 <= r -> (0 <= round_half_even r)%Z.
Proof.
  intro H. pose proof (Qfloor_nonneg r H) as Hf. unfold round_half_even.
  destruct (Qcompare (r - inject_Z (Qfloor r)) (1 # 2));
    [destruct (Z.even (Qfloor r))| |]; lia.
Qed.

Lemma scaled_nonneg (k : Z) (s : Q) : (0 <= k)%Z -> 0 < s -> 0 <= Qred (inject_Z k * s).
Proof.
  intros Hk Hs. rewrite Qred_correct.
  apply Qmult_le_0_compat; [|lra].
  unfold Qle. cbn. lia.
Qed.

Lemma div_nonneg (a s : Q) : 0 <= a -> 0 < s -> 0 <= a / s.
Proof.
  intros Ha Hs. apply Qle_shift_div_l; [exact Hs | lra].
Qed.

Lemma round_binary_nonneg (prec emin : Z) (a : Q) :
  0 <= a -> 0 <= round_binary prec emin a.
Proof.
  intro Ha. unfold round_binary.
  apply scaled_nonneg; [|apply Qpow_pos].
  apply round_half_even_nonneg, div_nonneg; [exact Ha | apply Qpow_pos].
Qed.

Lemma decimal_of_length_nonneg (n10 : Z) (v : Q) (k : Z) (c : Q) :
  0 <= v -> decimal_of_length n10 v k = Some c -> 0 <= c.
Proof.
  intros Hv. unfold decimal_of_length.
  set (step := Qpow 10 (n10 - k)).
  assert (Hs : 0 < step) by apply Qpow_pos.
  assert (Hlo : (0 <= Qfloor (v / step))%Z)
    by (apply Qfloor_nonneg, div_nonneg; assumption).
  assert (H1 : 0 <= Qred (inject_Z (Qfloor (v / step)) * step))
    by (apply scaled_nonneg; assumption).
  assert (H2 : 0 <= Qred (inject_Z (Qfloor (v / step) + 1) * step))
    by (apply scaled_nonneg; [lia | assumption]).
  repeat match goal with
         | |- context [if ?b then _ else _] => destruct b
         | |- context [match ?b with _ => _ end] => destruct b
         end; intro E; inversion E; subst; assumption.
Qed.

Lemma shortest_from_nonneg (n10 : Z) (v : Q) (fuel : nat) (k : Z) :
  0 <= v -> 0 <= shortest_from n10 v fuel k.
Proof.
  intro Hv. revert k. induction fuel as [|fuel IH]; intro k; cbn; [exact Hv|].
  destruct (decimal_of_length n10 v k) as [c|] eqn:E; [|apply IH].
  exact (decimal_of_length_nonneg n10 v k c Hv E).
Qed.

(** Rounding keeps the sign: a value that is not negative rounds to a
    number that is not negative. *)
Lemma parseFloat_nonneg (x : Q) : 0 <= x -> 0 <= parseFloat x.
Proof.
  intro Hx. unfold parseFloat, on_magnitude.
  assert (Hr : 0 <= Qred x) by (rewrite Qred_correct; exact Hx).
  destruct (Qred x) as [n d] eqn:E. cbn [Qnum].
  destruct n as [|n|n].
  - apply Qle_refl.
  - unfold rounded_number.
    destruct (Qeq_bool (round_double (Zpos n # d)) 0); [apply Qle_refl|].
    unfold shortest_decimal.
    apply shortest_from_nonneg, round_binary_nonneg. exact Hr.
  - exfalso. unfold Qle in Hr. cbn in Hr. lia.
Qed.

(* ------------------------------------------------------------------ *)
(** ** The time model *)

Lemma state_eqb_eq (a b : TPlayerState) : TPlayerState_eqb a b = true <-> a = b.
Proof. destruct a, b; simpl; split; congruence. Qed.

Lemma state_eqb_neq (a b : TPlayerState) : TPlayerState_eqb a b = false <-> a <> b.
Proof. destruct a, b; simpl; split; congruence. Qed.

(** Two representations of one rational round to the same number. *)
#[export] Instance parseFloat_comp : Proper (Qeq ==> eq) parseFloat.
Proof.
  intros x y E. unfold parseFloat, on_magnitude.
  rewrite (Qred_complete x y E). reflexivity.
Qed.


#[export] Instance js_or_comp : Proper (Qeq ==> Qeq ==> Qeq) js_or.
Proof.
  intros a a' Ea b b' Eb. unfold js_or.
  assert (E : Qeq_bool a 0 = Qeq_bool a' 0)
    by (apply Qeqb_comp; [exact Ea | reflexivity]).
  rewrite E. destruct (Qeq_bool a' 0); assumption.
Qed.

Lemma position_loop_rounded_comp (n n' s s' r r' so so' ls ls' le le' : Q) :
  n - s == n' - s' -> r == r' -> so == so' -> ls == ls' -> le == le' ->
  position_loop_rounded n s r so ls le
  = position_loop_rounded n' s' r' so' ls' le'.
Proof.
  intros En Er Eso Els Ele.
  unfold position_loop_rounded, gapToLoop_rounded, loopSpan_rounded.
  apply parseFloat_comp.
  assert (Eg : parseFloat (ls - so) = parseFloat (ls' - so'))
    by (apply parseFloat_comp; rewrite Els, Eso; reflexivity).
  assert (Es : parseFloat (le - ls) = parseFloat (le' - ls'))
    by (apply parseFloat_comp; rewrite Ele, Els; reflexivity).
  rewrite Eg, Es, En, Er, Els. reflexivity.
Qed.

(** In its loop branch [currentTime] never fails: the divisor given to
    [mod] is never zero, also when the loop region is degenerate. *)
Lemma currentTime_total (p : WebAudioPlayer) : exists t, currentTime p = Some t.
Proof.
  unfold currentTime.
  destruct (TPlayerState_eqb (_state p) St_running); [|eauto].
  destruct (_loop p); [|eauto].
  match goal with
  | |- context [Big.mod_ ?x ?y] =>
      destruct (Big_mod_Qrem x y (js_or_1_nonzero _)) as [r [Hr _]]
  end.
  rewrite Hr. eauto.
Qed.

(** The loop branch of [currentTime], through [big.js], computes the
    position formula between its roundings. *)
Lemma currentTime_loop_position (p : WebAudioPlayer) :
  _state p = St_running ->
  _loop p = true ->
  currentTime p
  = Some (position_loop_rounded (ctx_currentTime (_ctx p)) (_ctxStartTime p)
            (_rateValue p) (_startOffset p) (_loopStart p) (_loopEnd p)).
Proof.
  intros Hrun Hloop. unfold currentTime. rewrite Hrun, Hloop.
  cbn [TPlayerState_eqb].
  match goal with
  | |- context [Big.mod_ ?x ?y] =>
      destruct (Big_mod_Qrem x y (js_or_1_nonzero _)) as [r [Hr Er]]
  end.
  rewrite Hr. f_equal.
  unfold position_loop_rounded, gapToLoop_rounded, loopSpan_rounded.
  apply parseFloat_comp.
  unfold Big.valueOf, Big.plus. rewrite Er.
  unfold js_or, Big.minus, Big.times, Big.Big, Big.valueOf.
  reflexivity.
Qed.

(** C1, as stated, fails on the loop 1.1 .. 3.3000000000000003 played from
    1.1: after 2.2 seconds the exact formula gives 3.3, but the span is
    rounded to the double 2.2 before the remainder is taken and
    [currentTime] is 1.1. *)
Lemma loop_position_exact_counterexample :
  ~ loop_position_exact player_loop_rounding.
Proof.
  intros [t [Ht Et]].
  vm_compute in Ht. injection Ht as <-.
  vm_compute in Et. discriminate.
Qed.

(** The two values of that counterexample. *)
Example loop_rounding_evaluated :
  currentTime player_loop_rounding = Some 1.1
  /\ position_loop 2.2 0 1 1.1 1.1 3.3000000000000003 == 3.3
  /\ parseFloat (3.3000000000000003 - 1.1) == 2.2.
Proof. vm_compute. repeat split; reflexivity. Qed.

(** C1, amended.  While the player is running in loop mode, [currentTime]
    is the double nearest to
    [((clockNow - clockAtStart) * rate - gapToLoop) mod loopSpan + loopStart]
    where [gapToLoop] is the double nearest to [loopStart - startOffset] and
    [loopSpan] the double nearest to [loopEnd - loopStart], replaced by 1
    when it is zero; the arithmetic between these roundings is exact and
    [mod] is the remainder with the sign of the dividend.  With
    [startOffset = 10], [loopStart = 15], [loopEnd = 25] and [rate = 1] it is
    15 after 5 elapsed seconds and 20 after 20 elapsed seconds. *)
Theorem currentTime_loop (p : WebAudioPlayer) :
  _state p = St_running ->
  _loop p = true ->
  exists t,
    currentTime p = Some t /\
    t = position_loop_rounded (ctx_currentTime (_ctx p)) (_ctxStartTime p)
          (_rateValue p) (_startOffset p) (_loopStart p) (_loopEnd p) /\
    (_startOffset p == 10 -> _loopStart p == 15 -> _loopEnd p == 25 ->
     _rateValue p == 1 ->
     (ctx_currentTime (_ctx p) - _ctxStartTime p == 5 -> t == 15) /\
     (ctx_currentTime (_ctx p) - _ctxStartTime p == 20 -> t == 20)).
Proof.
  intros Hrun Hloop.
  eexists. split; [apply (currentTime_loop_position p Hrun Hloop)|].
  split; [reflexivity|].
  intros Eso Els Ele Er1. split; intro Eel.
  - rewrite (position_loop_rounded_comp _ 5 _ 0 _ 1 _ 10 _ 15 _ 25);
      [vm_compute; reflexivity | rewrite Eel; reflexivity | assumption ..].
  - rewrite (position_loop_rounded_comp _ 20 _ 0 _ 1 _ 10 _ 15 _ 25);
      [vm_compute; reflexivity | rewrite Eel; reflexivity | assumption ..].
Qed.

(** The loop scenario end to end: a buffer of 30 seconds, the loop
    configuration, [play], then 5 seconds of clock. *)
Lemma currentTime_loop_witness :
  exists t,
    currentTime (ctx_advance 5 player_loop_running) = Some t /\ t == 15.
Proof.
  destruct (currentTime_loop (ctx_advance 5 player_loop_running))
    as [t [H1 [_ H3]]]; [vm_compute; reflexivity ..|].
  exists t. split; [exact H1|].
  apply H3; vm_compute; reflexivity.
Defined.

(** C5, as stated, fails on the ranged scenario read one render quantum
    (128 frames at 48 kHz) after [play]: the exact sum has 21 significant
    digits and [currentTime] is the double nearest to it. *)
Lemma ranged_position_exact_counterexample :
  ~ ranged_position_exact player_ranged_rounding.
Proof.
  intros [t [Ht Et]].
  vm_compute in Ht. injection Ht as <-.
  vm_compute in Et. discriminate.
Qed.

(** The two values of that counterexample. *)
Example ranged_rounding_evaluated :
  same_position (currentTime player_ranged_rounding)
    (Some 10.002666666666666)
  /\ position_ranged 0.0026666666666666666 0 1 10
     == 10.0026666666666666666.
Proof. vm_compute. repeat split; reflexivity. Qed.

(** C5, amended.  While the player is running without loop, [currentTime]
    is the double nearest to
    [(clockNow - clockAtStart) * rate + startOffset], computed exactly; in
    any other state it is the frozen position, whatever the clock reads. *)
Theorem currentTime_ranged_or_frozen (p : WebAudioPlayer) :
  (_state p = St_running -> _loop p = false ->
   currentTime p
   = Some (position_ranged_rounded (ctx_currentTime (_ctx p))
             (_ctxStartTime p) (_rateValue p) (_startOffset p)))
  /\ (_state p <> St_running ->
      currentTime p = Some (_lastCurrentTime p)
      /\ forall c, currentTime (upd_ctx c p) = Some (_lastCurrentTime p)).
Proof.
  split.
  - intros Hrun Hloop. unfold currentTime. rewrite Hrun, Hloop. reflexivity.
  - intro Hnot. apply state_eqb_neq in Hnot.
    split; [|intro c]; unfold currentTime; simpl; rewrite Hnot; reflexivity.
Qed.

(** The ranged scenario end to end, 5 seconds after [play]; and a paused
    player whose clock is read later. *)
Lemma currentTime_ranged_or_frozen_witness :
  currentTime (ctx_advance 5 player_ranged_running)
  = Some (position_ranged_rounded
            (ctx_currentTime (_ctx (ctx_advance 5 player_ranged_running)))
            (_ctxStartTime (ctx_advance 5 player_ranged_running))
            (_rateValue (ctx_advance 5 player_ranged_running))
            (_startOffset (ctx_advance 5 player_ranged_running)))
  /\ currentTime player_paused = Some (_lastCurrentTime player_paused).
Proof.
  assert (Hrun : _state (ctx_advance 5 player_ranged_running) = St_running)
    by (vm_compute; reflexivity).
  assert (Hloop : _loop (ctx_advance 5 player_ranged_running) = false)
    by (vm_compute; reflexivity).
  assert (Hnot : _state player_paused <> St_running)
    by (vm_compute; discriminate).
  split.
  - exact (proj1 (currentTime_ranged_or_frozen _) Hrun Hloop).
  - exact (proj1 (proj2 (currentTime_ranged_or_frozen _) Hnot)).
Defined.

(** The scenarios evaluated: 15 after 5 seconds of ranged playback, 15 and
    20 after 5 and 20 seconds of looped playback, 12 before the loop region
    is reached. *)
Example scenarios_evaluated :
  currentTime (ctx_advance 5 player_ranged_running) = Some 15
  /\ currentTime (ctx_advance 5 player_loop_running) = Some 15
  /\ currentTime (ctx_advance 20 player_loop_running) = Some 20
  /\ currentTime (ctx_advance 2 player_loop_running) = Some 12
  /\ currentTime player_paused = Some 20.
Proof. vm_compute. repeat split; reflexivity. Qed.

(* ------------------------------------------------------------------ *)
(** ** The transport *)

Lemma stop_no_node (p : WebAudioPlayer) :
  _sourceNode p = None -> stop p = (p, []).
Proof. intro H. unfold stop. rewrite H. reflexivity. Qed.

Lemma sourceNode_after_stop (p : WebAudioPlayer) :
  _sourceNode (after stop p) = None.
Proof.
  open_player p. unfold_actions. cbn.
  destruct sn; [destruct cb|]; reflexivity.
Qed.

Lemma sourceNode_after_destroy (p : WebAudioPlayer) :
  _sourceNode (after destroy p) = None.
Proof.
  open_player p. unfold_actions. cbn. destruct sn; reflexivity.
Qed.

Lemma sourceNode_new (c : AudioContext) :
  _sourceNode (fst (new_WebAudioPlayer c)) = None.
Proof. unfold new_WebAudioPlayer. destruct (ctx_state c); reflexivity. Qed.

(** C10.  Without an active playback node [stop()] does nothing at all:
    the player (transport state, frozen position, configuration) is the
    same and no effect, so no notification, is performed.  This is the case
    of a new player, after [stop()] and after [destroy()]. *)
Theorem stop_without_node (p : WebAudioPlayer) :
  (_sourceNode p = None -> stop p = (p, []))
  /\ stop (after stop p) = (after stop p, [])
  /\ stop (after destroy p) = (after destroy p, [])
  /\ (forall c, stop (fst (new_WebAudioPlayer c))
                = (fst (new_WebAudioPlayer c), [])).
Proof.
  repeat split.
  - apply stop_no_node.
  - apply stop_no_node, sourceNode_after_stop.
  - apply stop_no_node, sourceNode_after_destroy.
  - intro c. apply stop_no_node, sourceNode_new.
Qed.

(** A stopped player whose [startOffset] was set to 10: [stop()] leaves
    [currentTime] at 0. *)
Lemma stop_without_node_witness :
  stop player_offset_10 = (player_offset_10, [])
  /\ _startOffset player_offset_10 = 10
  /\ currentTime (after stop player_offset_10) = Some 0.
Proof.
  split; [|split; vm_compute; reflexivity].
  apply (proj1 (stop_without_node player_offset_10)).
  vm_compute. reflexivity.
Defined.




(** C6, as stated, fails on a paused player that still holds its node: the
    'ended' event of the node turns the state to ended. *)
Lemma ended_only_when_running_counterexample :
  ~ ended_only_when_running player_paused.
Proof.
  intros [_ H].
  assert (Hp : _state player_paused <> St_running)
    by (vm_compute; discriminate).
  destruct (H Hp) as [Hs _].
  vm_compute in Hs. discriminate.
Qed.

(** The event reaches the listener of that paused player. *)
Example ended_dispatched_while_paused :
  _sourceNode player_paused <> None
  /\ _state player_paused = St_paused
  /\ _state (after (exec Env_ended) player_paused) = St_ended.
Proof. vm_compute. repeat split; [discriminate | reflexivity ..]. Qed.

(** C6, amended.  The completion notification always sets the state to
    ended and notifies the subscriber; it freezes the position to exactly
    [endOffset] when the state is running at fire time, and leaves the
    frozen position as it is otherwise. *)
Theorem onSourceNodeEnded_effect (p : WebAudioPlayer) :
  _state (after _onSourceNodeEnded p) = St_ended
  /\ effects _onSourceNodeEnded p = notification p St_ended
  /\ (_state p = St_running ->
      _lastCurrentTime (after _onSourceNodeEnded p) = _endOffset p
      /\ currentTime (after _onSourceNodeEnded p) = Some (_endOffset p))
  /\ (_state p <> St_running ->
      _lastCurrentTime (after _onSourceNodeEnded p) = _lastCurrentTime p).
Proof.
  open_player p. unfold_actions. unfold notification, currentTime. cbn.
  destruct st, cb; cbn; repeat split; intros; try reflexivity; congruence.
Qed.

Lemma onSourceNodeEnded_effect_witness :
  _lastCurrentTime (after _onSourceNodeEnded
                      (ctx_advance 10 player_ranged_running))
  = _endOffset (ctx_advance 10 player_ranged_running)
  /\ _lastCurrentTime (after _onSourceNodeEnded player_paused)
     = _lastCurrentTime player_paused.
Proof.
  split.
  - apply (proj1 (proj2 (proj2 (onSourceNodeEnded_effect
                                  (ctx_advance 10 player_ranged_running))))).
    vm_compute. reflexivity.
  - apply (proj2 (proj2 (proj2 (onSourceNodeEnded_effect player_paused)))).
    vm_compute. discriminate.
Defined.

(** The ranged scenario to its end: after 10 seconds the node ends, the
    state is ended and [currentTime] is exactly 20. *)
Example ranged_scenario_ends :
  _state (after (exec Env_ended) (ctx_advance 10 player_ranged_running))
  = St_ended
  /\ currentTime (after (exec Env_ended) (ctx_advance 10 player_ranged_running))
     = Some 20.
Proof. vm_compute. split; reflexivity. Qed.


(** The invalid scenario: a stopped player with a buffer and the
    configuration [{loop: true, startOffset: 30, loopEnd: 20}]. *)
Example play_rejected_evaluated :
  play (session 0 [Set_audioBuffer buffer_30s; Call_setConfig cfg_loop_30_20])
  = (session 0 [Set_audioBuffer buffer_30s; Call_setConfig cfg_loop_30_20],
     [ConsoleError loopEnd_not_greater_than_startOffset])
  /\ _state (session 0 [Set_audioBuffer buffer_30s;
                        Call_setConfig cfg_loop_30_20]) = St_stop.
Proof. vm_compute. split; reflexivity. Qed.

(** On the values the player holds, the tests of [play()] are the tests on
    numbers. *)
Lemma play_check_number_finite (p : WebAudioPlayer) :
  play_check p
  = play_check_number (_loop p) (Finite (_startOffset p))
      (Finite (_endOffset p)) (Finite (_loopStart p)) (Finite (_loopEnd p)).
Proof. reflexivity. Qed.

(** C7 on the code.  A configuration whose [startOffset] is [NaN] violates
    the ordering invariants, with or without loop, and passes the tests of
    [play()] when its loop region is ordered: no validation error is
    reported and [play()] goes on to build the node. *)
Theorem play_check_misses_NaN (lp : bool) (eo ls le : number) :
  number_gt ls le = false ->
  valid_config_number lp NaN eo ls le = false
  /\ play_check_number lp NaN eo ls le = None.
Proof.
  intro H. unfold valid_config_number, play_check_number.
  destruct lp; cbn [number_le number_gt andb]; rewrite ?H; split; reflexivity.
Qed.

Lemma play_check_misses_NaN_witness :
  valid_config_number true NaN (Finite 30) (Finite 0) (Finite 30) = false
  /\ play_check_number true NaN (Finite 30) (Finite 0) (Finite 30) = None.
Proof. apply play_check_misses_NaN. reflexivity. Defined.

(** C8.  [play()] on a paused player with a buffer and a valid
    configuration only asks the context to resume: the node, the frozen
    position and the state are untouched, no node is created and nothing is
    notified.  The state becomes running, and the subscriber is notified,
    when the promise of that resume settles. *)
Theorem play_from_paused (p : WebAudioPlayer) :
  _state p = St_paused ->
  _audioBuffer p <> None ->
  valid_config p ->
  play p = (upd_ctx (ctx_request ReqResume K_play_resumed (_ctx p)) p,
            [CtxResume])
  /\ _state (after play p) = St_paused
  /\ _sourceNode (after play p) = _sourceNode p
  /\ ctx_nextNode (_ctx (after play p)) = ctx_nextNode (_ctx p)
  /\ _lastCurrentTime (after play p) = _lastCurrentTime p
  /\ (ctx_pending (_ctx p) = [] ->
      ctx_state (_ctx p) <> Ctx_closed ->
      _state (after ctx_settle (after play p)) = St_running
      /\ effects ctx_settle (after play p) = notification p St_running
      /\ _sourceNode (after ctx_settle (after play p)) = _sourceNode p
      /\ _lastCurrentTime (after ctx_settle (after play p))
         = _lastCurrentTime p
      /\ ctx_nextNode (_ctx (after ctx_settle (after play p)))
         = ctx_nextNode (_ctx p))
  /\ (forall q rest,
      ctx_pending (_ctx q) = (ReqResume, K_play_resumed) :: rest ->
      ctx_state (_ctx q) <> Ctx_closed ->
      _state (after ctx_settle q) = St_running
      /\ effects ctx_settle q = notification q St_running
      /\ _sourceNode (after ctx_settle q) = _sourceNode q
      /\ _lastCurrentTime (after ctx_settle q) = _lastCurrentTime q).
Proof.
  intros Hst Hb Hv. apply play_check_valid in Hv.
  assert (Hplay : play p
                  = (upd_ctx (ctx_request ReqResume K_play_resumed (_ctx p)) p,
                     [CtxResume])).
  { unfold play. destruct (_audioBuffer p); [|congruence].
    rewrite Hv, Hst. reflexivity. }
  split; [exact Hplay|].
  unfold after, effects. rewrite Hplay. cbn.
  assert (Hsettle : forall q rest,
             ctx_pending (_ctx q) = (ReqResume, K_play_resumed) :: rest ->
             ctx_state (_ctx q) <> Ctx_closed ->
             _state (after ctx_settle q) = St_running
             /\ effects ctx_settle q = notification q St_running
             /\ _sourceNode (after ctx_settle q) = _sourceNode q
             /\ _lastCurrentTime (after ctx_settle q) = _lastCurrentTime q
             /\ ctx_nextNode (_ctx (after ctx_settle q))
                = ctx_nextNode (_ctx q)).
  { intros q rest Hpend Hopen. open_player q.
    destruct c as [cs ? ? pend]. cbn in Hpend, Hopen. subst pend.
    unfold ctx_settle, notification, run_continuation. unfold_actions. cbn.
    destruct cs, cb; cbn; repeat split; congruence. }
  split; [exact Hst|]. do 3 (split; [reflexivity|]).
  split.
  - intros Hpend Hopen.
    destruct (Hsettle
                (upd_ctx (ctx_request ReqResume K_play_resumed (_ctx p)) p) [])
      as [H1 [H2 [H3 [H4 H5]]]].
    + cbn. rewrite Hpend. reflexivity.
    + exact Hopen.
    + repeat split; assumption.
  - intros q rest Hpend Hopen.
    destruct (Hsettle q rest Hpend Hopen) as [H1 [H2 [H3 [H4 _]]]].
    repeat split; assumption.
Qed.

Lemma play_from_paused_witness :
  _state (after play player_paused) = St_paused
  /\ _sourceNode (after play player_paused) = _sourceNode player_paused
  /\ _state (after ctx_settle (after play player_paused)) = St_running.
Proof.
  assert (Hst : _state player_paused = St_paused)
    by (vm_compute; reflexivity).
  assert (Hb : _audioBuffer player_paused <> None)
    by (vm_compute; discriminate).
  assert (Hv : valid_config player_paused)
    by (vm_compute; discriminate).
  destruct (play_from_paused player_paused Hst Hb Hv)
    as [_ [H1 [H2 [_ [_ H3]]]]].
  split; [exact H1 | split; [exact H2|]].
  apply H3; vm_compute; [reflexivity | discriminate].
Defined.

(** The continuation of a resume is the only step of [play] from paused
    that changes the state. *)
Lemma play_resumed_continuation (q : WebAudioPlayer) :
  run_continuation K_play_resumed q
  = (upd_state St_running q, notification q St_running).
Proof.
  unfold run_continuation, notification. unfold_actions. cbn.
  destruct (_onStateChange q); reflexivity.
Qed.

(* ------------------------------------------------------------------ *)
(** ** [setConfig] *)

(** [needRestart], as the method computes it, is the specified
    classification: the loop flag read at the [endOffset] test may be the
    one just assigned, but then [loop] already forced the restart. *)
Lemma needRestart_classification (v : IPlayerConfig) (p : WebAudioPlayer) :
  snd (setConfig_fields v p) = restart_required (_loop p) v.
Proof.
  unfold setConfig_fields, restart_required, is_number, is_boolean.
  open_player p. cbn.
  case_fields v; destruct gn, lp; cbn; try reflexivity;
    match goal with
    | |- context [negb ?b] => destruct b; reflexivity
    end.
Qed.

(** The field assignments touch the configuration and the gain node only. *)
Lemma configured_frame (v : IPlayerConfig) (p : WebAudioPlayer) :
  _state (configured v p) = _state p
  /\ _sourceNode (configured v p) = _sourceNode p
  /\ _lastCurrentTime (configured v p) = _lastCurrentTime p
  /\ _ctxStartTime (configured v p) = _ctxStartTime p
  /\ _ctx (configured v p) = _ctx p
  /\ _audioBuffer (configured v p) = _audioBuffer p
  /\ _onStateChange (configured v p) = _onStateChange p.
Proof.
  unfold configured, setConfig_fields. open_player p. cbn.
  case_fields v; destruct gn; cbn; repeat split; reflexivity.
Qed.

(** Partial merge: a field that is present and well typed is stored, any
    other keeps its value. *)
Lemma configured_merge (v : IPlayerConfig) (p : WebAudioPlayer) :
  _gainValue (configured v p)
  = match as_number (gainValue v) with Some x => x | None => _gainValue p end
  /\ _rateValue (configured v p)
     = match as_number (rateValue v) with Some x => x | None => _rateValue p end
  /\ _loop (configured v p)
     = match as_boolean (loop v) with Some x => x | None => _loop p end
  /\ _startOffset (configured v p)
     = match as_number (startOffset v) with
       | Some x => x | None => _startOffset p end
  /\ _endOffset (configured v p)
     = match as_number (endOffset v) with
       | Some x => x | None => _endOffset p end
  /\ _loopStart (configured v p)
     = match as_number (loopStart v) with
       | Some x => x | None => _loopStart p end
  /\ _loopEnd (configured v p)
     = match as_number (loopEnd v) with Some x => x | None => _loopEnd p end.
Proof.
  unfold configured, setConfig_fields. open_player p. cbn.
  case_fields v; destruct gn; cbn; repeat split; reflexivity.
Qed.



Lemma setConfig_fields_eta (v : IPlayerConfig) (p : WebAudioPlayer) :
  setConfig_fields v p
  = (configured v p, hot_effects v p, restart_required (_loop p) v).
Proof.
  rewrite <- needRestart_classification. unfold configured, hot_effects.
  destruct (setConfig_fields v p) as [[? ?] ?]. reflexivity.
Qed.

(** Without a restart-required field [setConfig] is its assignments. *)
Lemma setConfig_hot (v : IPlayerConfig) (p : WebAudioPlayer) :
  restart_required (_loop p) v = false ->
  setConfig v p = (configured v p, hot_effects v p).
Proof.
  intro H. unfold setConfig. rewrite setConfig_fields_eta, H. reflexivity.
Qed.

(** With one, on a running player: the assignments, [stop()], [play()]. *)
Lemma setConfig_running (v : IPlayerConfig) (p : WebAudioPlayer) :
  restart_required (_loop p) v = true ->
  _state p = St_running ->
  setConfig v p
  = (after play (after stop (configured v p)),
     hot_effects v p ++ effects stop (configured v p)
       ++ effects play (after stop (configured v p))).
Proof.
  intros H Hrun. unfold setConfig. rewrite setConfig_fields_eta, H.
  unfold setConfig_restart.
  destruct (configured_frame v p) as [Hst _]. rewrite Hst, Hrun.
  unfold seq, after, effects. cbn.
  destruct (stop (configured v p)) as [p2 e2]. cbn.
  destruct (play p2) as [p3 e3]. reflexivity.
Qed.

(** With one, on a player that is not running: the assignments and
    [stop()], no [play()]. *)
Lemma setConfig_not_running (v : IPlayerConfig) (p : WebAudioPlayer) :
  restart_required (_loop p) v = true ->
  _state p <> St_running ->
  setConfig v p
  = (after stop (configured v p),
     hot_effects v p ++ effects stop (configured v p)).
Proof.
  intros H Hrun. unfold setConfig. rewrite setConfig_fields_eta, H.
  unfold setConfig_restart.
  destruct (configured_frame v p) as [Hst _]. rewrite Hst.
  apply state_eqb_neq in Hrun. rewrite Hrun.
  unfold seq, skip, after, effects.
  destruct (stop (configured v p)) as [p2 e2]. cbn.
  rewrite app_nil_r. reflexivity.
Qed.








(** The same call evaluated. *)
Example restart_to_invalid_evaluated :
  _state (after (setConfig (cfg_startOffset 25)) player_ranged_running)
  = St_stop
  /\ _sourceNode (after (setConfig (cfg_startOffset 25)) player_ranged_running)
     = None
  /\ effects (setConfig (cfg_startOffset 25)) player_ranged_running
     = [SourceDestroy 0; ConsoleError endOffset_not_greater_than_startOffset].
Proof. vm_compute. repeat split; reflexivity. Qed.



(** The classification on the one-field configurations. *)
Example classification_evaluated (looping : bool) (x : Q) :
  restart_required looping (cfg_gain x) = false
  /\ restart_required looping (cfg_rate x) = true
  /\ restart_required looping (cfg_startOffset x) = true
  /\ restart_required true (cfg_endOffset x) = false
  /\ restart_required false (cfg_endOffset x) = true
  /\ restart_required looping cfg_empty = false.
Proof. destruct looping; repeat split; reflexivity. Qed.


(** The same call evaluated: paused at 20 before, stopped at 10 after. *)
Example restart_while_paused_evaluated :
  _state player_paused = St_paused
  /\ currentTime player_paused = Some 20
  /\ _state (after (setConfig (cfg_rate 2)) player_paused) = St_stop
  /\ currentTime (after (setConfig (cfg_rate 2)) player_paused) = Some 10
  /\ _sourceNode (after (setConfig (cfg_rate 2)) player_paused) = None
  /\ effects (setConfig (cfg_rate 2)) player_paused = [SourceDestroy 0].
Proof. vm_compute. repeat split; reflexivity. Qed.



(* ------------------------------------------------------------------ *)
(** ** The loaders on a decode failure *)

Import Loader.

Lemma loadAudioFromUrl_app (decode : ArrayBuffer -> option AudioBuffer)
      (events : list XhrEvent) (ev : XhrEvent) :
  loadAudioFromUrl decode (events ++ [ev])
  = loadAudioFromUrl_on decode ev (loadAudioFromUrl decode events).
Proof. unfold loadAudioFromUrl. rewrite fold_left_app. reflexivity. Qed.

(** From a pending promise, events that are neither an error nor a load of
    decodable bytes leave the promise pending. *)
Lemma fold_pending (decode : ArrayBuffer -> option AudioBuffer)
      (events : list XhrEvent) :
  Forall (no_settlement decode) events ->
  fold_left (fun s ev => loadAudioFromUrl_on decode ev s) events Pending
  = Pending.
Proof.
  induction events as [|ev events IH]; intro H; [reflexivity|].
  inversion H as [|? ? Hev Hrest]; subst. cbn [fold_left].
  assert (E : loadAudioFromUrl_on decode ev Pending = Pending).
  { destruct ev; cbn in *; try reflexivity; [|contradiction].
    unfold decodeAudioData. rewrite Hev. reflexivity. }
  rewrite E. apply IH. exact Hrest.
Qed.

(** C9 on the code.  When the bytes cannot be decoded, the promise of
    [loadAudioFromUrl] and the promise of [loadAudioFromFile] stay pending:
    neither is rejected. *)
Theorem loaders_pending_on_decode_failure
        (decode : ArrayBuffer -> option AudioBuffer)
        (events : list XhrEvent) (bytes : ArrayBuffer) :
  decode bytes = None ->
  Forall (no_settlement decode) events ->
  loadAudioFromUrl decode (events ++ [Xhr_load bytes]) = Pending
  /\ loadAudioFromFile decode (Result_arrayBuffer bytes) = Pending.
Proof.
  intros Hd Hev. split.
  - rewrite loadAudioFromUrl_app. unfold loadAudioFromUrl.
    rewrite (fold_pending decode events Hev).
    cbn. unfold decodeAudioData. rewrite Hd. reflexivity.
  - unfold loadAudioFromFile, loadAudioFromFile_onloadend, decodeAudioData.
    rewrite Hd. reflexivity.
Qed.

Lemma loaders_pending_on_decode_failure_witness :
  loadAudioFromUrl decode_riff
    ([Xhr_loadstart; Xhr_progress 4 4] ++ [Xhr_load [0; 1; 2; 3]%N])
  = Pending
  /\ loadAudioFromFile decode_riff (Result_arrayBuffer [0; 1; 2; 3]%N)
     = Pending.
Proof.
  apply loaders_pending_on_decode_failure.
  - reflexivity.
  - repeat constructor.
Defined.

(** The other paths settle: decodable bytes fulfil the promise, a transfer
    error of the request rejects it. *)
Example loaders_settle_otherwise :
  loadAudioFromUrl decode_riff
    [Xhr_loadstart; Xhr_load [82; 73; 70; 70; 0]%N]
  = Fulfilled buffer_30s
  /\ loadAudioFromUrl decode_riff [Xhr_loadstart; Xhr_error] = Rejected
  /\ loadAudioFromFile decode_riff (Result_arrayBuffer [82; 73; 70; 70]%N)
     = Fulfilled buffer_30s
  /\ loadAudioFromFile decode_riff Result_null = Pending.
Proof. repeat split; reflexivity. Qed.

(* ------------------------------------------------------------------ *)
(** ** Identity of the nodes *)

Lemma after_seq (a b : Action) (p : WebAudioPlayer) :
  after (a ;; b) p = after b (after a p).
Proof.
  unfold after, seq. destruct (a p) as [p1 e1]. cbn.
  destruct (b p1). reflexivity.
Qed.













(* ------------------------------------------------------------------ *)
(** ** The configuration as a client reads and writes it *)

(** [stop()] and [play()] leave the configuration as it is. *)
Lemma getConfig_after_stop (p : WebAudioPlayer) :
  getConfig (after stop p) = getConfig p.
Proof.
  open_player p. unfold_actions. cbn.
  destruct sn; [destruct cb|]; reflexivity.
Qed.

Lemma getConfig_after_play (p : WebAudioPlayer) :
  getConfig (after play p) = getConfig p.
Proof.
  unfold after, play.
  destruct (_audioBuffer p); [|reflexivity].
  destruct (play_check p); [reflexivity|].
  destruct (TPlayerState_eqb (_state p) St_paused).
  - open_player p. unfold_actions. reflexivity.
  - unfold play_createSource, play_initGain, play_start.
    open_player p. unfold_actions. cbn.
    destruct sn, gn; cbn; case_start; cbn; destruct cb; reflexivity.
Qed.

Lemma getConfig_configured (v : IPlayerConfig) (p : WebAudioPlayer) :
  getConfig (configured v p) = config_merge v (getConfig p).
Proof.
  destruct (configured_merge v p) as [Hg [Hr [Hl [Hso [Heo [Hls Hle]]]]]].
  unfold getConfig, config_merge, merge_number, merge_boolean. cbn.
  rewrite Hg, Hr, Hl, Hso, Heo, Hls, Hle.
  case_fields v; reflexivity.
Qed.

(** The player [setConfig] leaves is the configured one, possibly stopped
    and started again. *)
Lemma after_setConfig_cases (v : IPlayerConfig) (p : WebAudioPlayer) :
  after (setConfig v) p = configured v p
  \/ after (setConfig v) p = after stop (configured v p)
  \/ after (setConfig v) p = after play (after stop (configured v p)).
Proof.
  destruct (restart_required (_loop p) v) eqn:Hre.
  - destruct (TPlayerState_eqb (_state p) St_running) eqn:Hst.
    + apply state_eqb_eq in Hst. right. right.
      unfold after at 1. rewrite (setConfig_running v p Hre Hst). reflexivity.
    + apply state_eqb_neq in Hst. right. left.
      unfold after at 1. rewrite (setConfig_not_running v p Hre Hst).
      reflexivity.
  - left. unfold after. rewrite (setConfig_hot v p Hre). reflexivity.
Qed.

Lemma getConfig_after_setConfig (v : IPlayerConfig) (p : WebAudioPlayer) :
  getConfig (after (setConfig v) p) = config_merge v (getConfig p).
Proof.
  destruct (after_setConfig_cases v p) as [E | [E | E]]; rewrite E.
  - apply getConfig_configured.
  - rewrite getConfig_after_stop. apply getConfig_configured.
  - rewrite getConfig_after_play, getConfig_after_stop.
    apply getConfig_configured.
Qed.

Lemma config_merge_idempotent (v c : IPlayerConfig) :
  config_merge v (config_merge v c) = config_merge v c.
Proof.
  unfold config_merge, merge_number, merge_boolean. cbn.
  case_fields v; reflexivity.
Qed.

(** X1.  The snapshot [getConfig()] returns after [setConfig(v)] is the
    previous snapshot with exactly the fields of [v] that are present and of
    the expected type replaced, whether or not the call restarted playback;
    applying the same [v] again does not change it further. *)
Theorem setConfig_merges_snapshot (v : IPlayerConfig) (p : WebAudioPlayer) :
  getConfig (after (setConfig v) p) = config_merge v (getConfig p)
  /\ getConfig (after (setConfig v) (after (setConfig v) p))
     = getConfig (after (setConfig v) p).
Proof.
  split; [apply getConfig_after_setConfig|].
  rewrite !getConfig_after_setConfig. apply config_merge_idempotent.
Qed.

(** X2.  A partial configuration without any field that is present and of
    the expected type (an empty object, fields of a wrong type) is ignored:
    the player is the same and nothing is performed. *)
Theorem setConfig_ignores_untyped (v : IPlayerConfig) (p : WebAudioPlayer) :
  no_field v = true -> setConfig v p = (p, []).
Proof.
  unfold no_field, is_number, is_boolean. intro H.
  unfold setConfig, setConfig_fields. open_player p. cbn.
  revert H. case_fields v; cbn; intro H; try discriminate. reflexivity.
Qed.

Lemma setConfig_ignores_untyped_witness :
  setConfig {| loop := JsNumber 1; startOffset := JsBoolean true;
               endOffset := JsOther; loopStart := JsUndefined;
               loopEnd := JsOther; rateValue := JsBoolean false;
               gainValue := JsOther |} player_ranged_running
  = (player_ranged_running, []).
Proof. apply setConfig_ignores_untyped. reflexivity. Defined.



(** X4.  Assigning [audioBuffer] resets the range to the whole buffer
    ([startOffset = 0], [endOffset = duration], [loopStart = 0],
    [loopEnd = duration]) and keeps [loop], [rateValue] and [gainValue]; it
    performs nothing and leaves the state, the node the player holds, the
    anchor and the frozen position, also while playing.  For a buffer of
    non-negative duration the resulting configuration passes the checks of
    [play()]. *)
Theorem set_audioBuffer_resets (b : AudioBuffer) (p : WebAudioPlayer) :
  getConfig (after (set_audioBuffer b) p)
  = {| loop := JsBoolean (_loop p);
       startOffset := JsNumber 0; endOffset := JsNumber (duration b);
       loopStart := JsNumber 0; loopEnd := JsNumber (duration b);
       rateValue := JsNumber (_rateValue p);
       gainValue := JsNumber (_gainValue p) |}
  /\ get_duration (after (set_audioBuffer b) p) = duration b
  /\ _audioBuffer (after (set_audioBuffer b) p) = Some b
  /\ effects (set_audioBuffer b) p = []
  /\ _state (after (set_audioBuffer b) p) = _state p
  /\ _sourceNode (after (set_audioBuffer b) p) = _sourceNode p
  /\ _ctxStartTime (after (set_audioBuffer b) p) = _ctxStartTime p
  /\ _lastCurrentTime (after (set_audioBuffer b) p) = _lastCurrentTime p
  /\ (0 <= duration b ->
      valid_config (after (set_audioBuffer b) p)
      /\ play_check (after (set_audioBuffer b) p) = None).
Proof.
  assert (Hv : 0 <= duration b ->
               valid_config (after (set_audioBuffer b) p)).
  { intro Hd. unfold valid_config. open_player p. cbn. destruct lp; auto. }
  repeat (split; [open_player p; reflexivity|]).
  intro Hd. split; [auto | apply play_check_valid; auto].
Qed.

Lemma set_audioBuffer_resets_witness :
  valid_config (after (set_audioBuffer buffer_30s) player_loop_running)
  /\ play_check (after (set_audioBuffer buffer_30s) player_loop_running)
     = None.
Proof.
  apply (set_audioBuffer_resets buffer_30s player_loop_running).
  vm_compute. discriminate.
Defined.

(** X5.  [play()] changes the state to running only on a player that has a
    buffer and a configuration that satisfies the ordering invariants: it
    never starts an invalid range. *)
Theorem play_running_only_if_valid (p : WebAudioPlayer) :
  _state p <> St_running ->
  _state (after play p) = St_running ->
  _audioBuffer p <> None /\ valid_config p /\ _state p <> St_paused.
Proof.
  intros Hnot Hrun. unfold after, play in Hrun.
  destruct (_audioBuffer p) eqn:Hb; [|cbn in Hrun; congruence].
  destruct (play_check p) eqn:Hc; [cbn in Hrun; congruence|].
  apply play_check_valid in Hc.
  destruct (TPlayerState_eqb (_state p) St_paused) eqn:Hp.
  - exfalso. apply state_eqb_eq in Hp.
    revert Hrun. open_player p. unfold_actions. cbn in *. congruence.
  - apply state_eqb_neq in Hp. repeat split; [discriminate | exact Hc | exact Hp].
Qed.

Lemma play_running_only_if_valid_witness :
  _audioBuffer (session 0 [Set_audioBuffer buffer_30s;
                           Call_setConfig cfg_range_10_20]) <> None
  /\ valid_config (session 0 [Set_audioBuffer buffer_30s;
                              Call_setConfig cfg_range_10_20])
  /\ _state (session 0 [Set_audioBuffer buffer_30s;
                        Call_setConfig cfg_range_10_20]) <> St_paused.
Proof.
  apply play_running_only_if_valid.
  - vm_compute. discriminate.
  - vm_compute. reflexivity.
Defined.



(** A negative [startOffset] with an end beyond it passes the checks of
    [play()], and [start] refuses it. *)
Example play_negative_offset_evaluated :
  play_check (session 0 [Set_audioBuffer buffer_30s;
                         Call_setConfig (cfg_startOffset (-5))]) = None
  /\ In (Throws RangeError)
        (effects play (session 0 [Set_audioBuffer buffer_30s;
                                  Call_setConfig (cfg_startOffset (-5))]))
  /\ _state (session 0 [Set_audioBuffer buffer_30s;
                        Call_setConfig (cfg_startOffset (-5)); Call_play])
     = St_stop.
Proof. vm_compute. auto. Qed.

(* ------------------------------------------------------------------ *)
(** ** The loop position over time *)

Lemma Qfloor_succ (q : Q) : Qfloor (q + 1) = (Qfloor q + 1)%Z.
Proof.
  destruct q as [n d]. unfold Qfloor, Qplus. cbn [Qnum Qden].
  rewrite Pos.mul_1_r, Z.mul_1_r.
  rewrite Z.div_add by discriminate. reflexivity.
Qed.

(** Beyond zero the remainder has the period of the divisor. *)
Lemma Qrem_period (x y : Q) : 0 <= x -> 0 < y -> Qrem (x + y) y == Qrem x y.
Proof.
  intros Hx Hy.
  assert (Hy0 : ~ y == 0) by lra.
  assert (Hq : 0 <= x / y).
  { apply Qle_shift_div_l; [exact Hy|]. lra. }
  assert (E : (x + y) / y == x / y + 1) by (field; exact Hy0).
  unfold Qrem.
  rewrite (Qtrunc_comp _ _ E).
  rewrite (Qtrunc_nonneg (x / y + 1)) by lra.
  rewrite (Qtrunc_nonneg _ Hq), Qfloor_succ, inject_Z_plus.
  ring.
Qed.

(** A dividend smaller than the divisor is its own remainder. *)
Lemma Qrem_small (x y : Q) : Qabs x < Qabs y -> Qrem x y == x.
Proof.
  intro H. unfold Qrem.
  rewrite (Qtrunc_small _ (Qabs_div_small x y H)). ring.
Qed.

(** The span the code divides by is positive when the loop region is not
    reversed. *)
Lemma loopSpan_rounded_pos (ls le : Q) : ls <= le -> 0 < loopSpan_rounded ls le.
Proof.
  intro H. unfold loopSpan_rounded.
  destruct (Qeq_bool (parseFloat (le - ls)) 0) eqn:E; [reflexivity|].
  apply Qeq_bool_neq in E.
  assert (H0 : 0 <= parseFloat (le - ls)) by (apply parseFloat_nonneg; lra).
  destruct (Qlt_le_dec 0 (parseFloat (le - ls))) as [Hlt | Hle];
    [exact Hlt|].
  exfalso. apply E. lra.
Qed.

Lemma ctx_advance_running (d : Q) (p : WebAudioPlayer) :
  ctx_state (_ctx p) = Ctx_running ->
  ctx_advance d p
  = upd_ctx {| ctx_state := Ctx_running;
               ctx_currentTime := ctx_currentTime (_ctx p) + d;
               ctx_nextNode := ctx_nextNode (_ctx p);
               ctx_pending := ctx_pending (_ctx p) |} p.
Proof. intro H. unfold ctx_advance. rewrite H. reflexivity. Qed.

(** X7.  In loop mode, as long as the distance between the elapsed
    playback time and the gap to the loop region, as the code rounds it, is
    less than the span the code divides by, no wrap is applied:
    [currentTime] is the double nearest to elapsed time minus gap plus
    [loopStart].  When the rounding of the gap is exact, this is the
    position of ranged playback from [startOffset]: the approach to the
    loop region and its first pass. *)
Theorem currentTime_loop_before_wrap (p : WebAudioPlayer) :
  _state p = St_running ->
  _loop p = true ->
  Qabs ((ctx_currentTime (_ctx p) - _ctxStartTime p) * _rateValue p
        - gapToLoop_rounded (_startOffset p) (_loopStart p))
  < Qabs (loopSpan_rounded (_loopStart p) (_loopEnd p)) ->
  currentTime p
  = Some (parseFloat
            ((ctx_currentTime (_ctx p) - _ctxStartTime p) * _rateValue p
             - gapToLoop_rounded (_startOffset p) (_loopStart p)
             + _loopStart p))
  /\ (gapToLoop_rounded (_startOffset p) (_loopStart p)
      == gapToLoop (_startOffset p) (_loopStart p) ->
      currentTime p
      = Some (position_ranged_rounded (ctx_currentTime (_ctx p))
                (_ctxStartTime p) (_rateValue p) (_startOffset p))).
Proof.
  intros Hrun Hloop Hlt.
  rewrite (currentTime_loop_position p Hrun Hloop).
  unfold position_loop_rounded, position_ranged_rounded.
  split.
  - f_equal. apply parseFloat_comp.
    rewrite (Qrem_small _ _ Hlt). reflexivity.
  - intro Eg. f_equal. apply parseFloat_comp.
    rewrite (Qrem_small _ _ Hlt), Eg.
    unfold gapToLoop, position_ranged. ring.
Qed.

Lemma currentTime_loop_before_wrap_witness :
  currentTime (ctx_advance 2 player_loop_running)
  = Some (position_ranged_rounded
            (ctx_currentTime (_ctx (ctx_advance 2 player_loop_running)))
            (_ctxStartTime (ctx_advance 2 player_loop_running))
            (_rateValue (ctx_advance 2 player_loop_running))
            (_startOffset (ctx_advance 2 player_loop_running))).
Proof.
  assert (Hrun : _state (ctx_advance 2 player_loop_running) = St_running)
    by (vm_compute; reflexivity).
  assert (Hloop : _loop (ctx_advance 2 player_loop_running) = true)
    by (vm_compute; reflexivity).
  assert (Hlt : Qabs ((ctx_currentTime (_ctx (ctx_advance 2 player_loop_running))
                       - _ctxStartTime (ctx_advance 2 player_loop_running))
                      * _rateValue (ctx_advance 2 player_loop_running)
                      - gapToLoop_rounded
                          (_startOffset (ctx_advance 2 player_loop_running))
                          (_loopStart (ctx_advance 2 player_loop_running)))
                < Qabs (loopSpan_rounded
                          (_loopStart (ctx_advance 2 player_loop_running))
                          (_loopEnd (ctx_advance 2 player_loop_running))))
    by (vm_compute; reflexivity).
  assert (Eg : gapToLoop_rounded
                 (_startOffset (ctx_advance 2 player_loop_running))
                 (_loopStart (ctx_advance 2 player_loop_running))
               == gapToLoop
                    (_startOffset (ctx_advance 2 player_loop_running))
                    (_loopStart (ctx_advance 2 player_loop_running)))
    by (vm_compute; reflexivity).
  exact (proj2 (currentTime_loop_before_wrap _ Hrun Hloop Hlt) Eg).
Defined.

(** When the gap to the loop region is not smaller than the loop span the
    position read before the region is reached is not the one played: from 0
    toward the region 20..25, [currentTime] reads 20 at once. *)
Example currentTime_far_from_loop :
  currentTime
    (session 0 [Set_audioBuffer buffer_30s;
                Call_setConfig
                  {| loop := JsBoolean true; startOffset := JsNumber 0;
                     endOffset := JsUndefined; loopStart := JsNumber 20;
                     loopEnd := JsNumber 25; rateValue := JsUndefined;
                     gainValue := JsUndefined |};
                Call_play])
  = Some 20.
Proof. vm_compute. reflexivity. Qed.

(** X8.  In loop mode, once the loop region is reached, [currentTime] is
    periodic in the span the code divides by (the double nearest to
    [loopEnd - loopStart], 1 when that is zero): a clock advance [d] that
    amounts to one such span of playback gives the same reading. *)
Theorem currentTime_loop_periodic (p : WebAudioPlayer) (d : Q) :
  _state p = St_running ->
  _loop p = true ->
  ctx_state (_ctx p) = Ctx_running ->
  _loopStart p <= _loopEnd p ->
  gapToLoop_rounded (_startOffset p) (_loopStart p)
    <= (ctx_currentTime (_ctx p) - _ctxStartTime p) * _rateValue p ->
  d * _rateValue p == loopSpan_rounded (_loopStart p) (_loopEnd p) ->
  currentTime (ctx_advance d p) = currentTime p.
Proof.
  intros Hrun Hloop Hctx Hreg Hin Hd.
  rewrite (currentTime_loop_position p Hrun Hloop).
  rewrite (ctx_advance_running d p Hctx).
  match goal with |- currentTime ?q = _ => set (q' := q) end.
  rewrite (currentTime_loop_position q' Hrun Hloop).
  unfold q'. cbn [_ctx _ctxStartTime _rateValue _startOffset _loopStart
                  _loopEnd upd_ctx ctx_currentTime].
  f_equal. unfold position_loop_rounded. apply parseFloat_comp.
  pose proof (loopSpan_rounded_pos _ _ Hreg) as Hpos.
  set (y := loopSpan_rounded (_loopStart p) (_loopEnd p)) in *.
  set (x := (ctx_currentTime (_ctx p) - _ctxStartTime p) * _rateValue p
            - gapToLoop_rounded (_startOffset p) (_loopStart p)).
  assert (E : (ctx_currentTime (_ctx p) + d - _ctxStartTime p) * _rateValue p
              - gapToLoop_rounded (_startOffset p) (_loopStart p)
              == x + y).
  { unfold x. rewrite <- Hd. ring. }
  rewrite E, Qrem_period; [reflexivity | unfold x; lra | exact Hpos].
Qed.

Lemma currentTime_loop_periodic_witness :
  currentTime (ctx_advance 10 (ctx_advance 7 player_loop_running))
  = currentTime (ctx_advance 7 player_loop_running).
Proof.
  assert (H1 : _state (ctx_advance 7 player_loop_running) = St_running)
    by (vm_compute; reflexivity).
  assert (H2 : _loop (ctx_advance 7 player_loop_running) = true)
    by (vm_compute; reflexivity).
  assert (H3 : ctx_state (_ctx (ctx_advance 7 player_loop_running))
               = Ctx_running)
    by (vm_compute; reflexivity).
  assert (H4 : _loopStart (ctx_advance 7 player_loop_running)
               <= _loopEnd (ctx_advance 7 player_loop_running))
    by (vm_compute; discriminate).
  assert (H5 : gapToLoop_rounded
                 (_startOffset (ctx_advance 7 player_loop_running))
                 (_loopStart (ctx_advance 7 player_loop_running))
               <= (ctx_currentTime (_ctx (ctx_advance 7 player_loop_running))
                   - _ctxStartTime (ctx_advance 7 player_loop_running))
                  * _rateValue (ctx_advance 7 player_loop_running))
    by (vm_compute; discriminate).
  assert (H6 : 10 * _rateValue (ctx_advance 7 player_loop_running)
               == loopSpan_rounded
                    (_loopStart (ctx_advance 7 player_loop_running))
                    (_loopEnd (ctx_advance 7 player_loop_running)))
    by (vm_compute; reflexivity).
  exact (currentTime_loop_periodic _ 10 H1 H2 H3 H4 H5 H6).
Defined.

(* ------------------------------------------------------------------ *)
(** ** Pausing and resuming *)

(** [currentTime] reads the clock of the context and nothing else of it. *)
Lemma currentTime_upd_ctx (c : AudioContext) (p : WebAudioPlayer) :
  ctx_currentTime c = ctx_currentTime (_ctx p) ->
  currentTime (upd_ctx c p) = currentTime p.
Proof. intro H. unfold currentTime. cbn. rewrite H. reflexivity. Qed.

(** Once the state is not running, no field but the frozen position
    matters. *)
Lemma currentTime_frozen (p : WebAudioPlayer) :
  _state p <> St_running -> currentTime p = Some (_lastCurrentTime p).
Proof.
  intro H. apply state_eqb_neq in H. unfold currentTime. rewrite H.
  reflexivity.
Qed.

(** [pause()] on a running player, then the suspension completes. *)
Lemma pause_settled (p : WebAudioPlayer) (t : Q) :
  _state p = St_running ->
  ctx_pending (_ctx p) = [] ->
  ctx_state (_ctx p) <> Ctx_closed ->
  currentTime p = Some t ->
  pause p
  = (upd_ctx (ctx_request ReqSuspend K_pause_suspended (_ctx p)) p,
     [CtxSuspend])
  /\ ctx_settle (after pause p)
     = (upd_state St_paused
          (upd_lastCurrentTime t (upd_ctx (settled_ctx Ctx_suspended p) p)),
        notification p St_paused).
Proof.
  intros Hrun Hpend Hopen Ht.
  assert (Hp : pause p
               = (upd_ctx (ctx_request ReqSuspend K_pause_suspended (_ctx p)) p,
                  [CtxSuspend])).
  { unfold pause. rewrite Hrun. reflexivity. }
  split; [exact Hp|].
  unfold after. rewrite Hp. cbn [fst].
  unfold ctx_settle. cbn [_ctx upd_ctx ctx_pending ctx_request ctx_state
                          ctx_currentTime ctx_nextNode].
  rewrite Hpend. cbn [app].
  assert (Hcur : currentTime
                   (upd_ctx (settled_ctx Ctx_suspended p)
                      (upd_ctx (ctx_request ReqSuspend K_pause_suspended
                                  (_ctx p)) p))
                 = Some t).
  { rewrite currentTime_upd_ctx; [|reflexivity].
    rewrite currentTime_upd_ctx; [exact Ht | reflexivity]. }
  unfold settled_ctx in *. cbn [_ctx upd_ctx ctx_currentTime ctx_nextNode] in *.
  destruct (ctx_state (_ctx p)); [| |congruence];
    cbn [run_continuation]; unfold pause_suspended; rewrite Hcur;
    unfold notification; open_player p; unfold_actions; cbn;
    destruct cb; reflexivity.
Qed.

(** X9.  [pause()] on a running player only asks the context to suspend;
    the state is still running until the suspension completes.  Then the
    position read at that moment is frozen, the state is paused, the
    subscriber is notified once, the node is kept, and [currentTime] keeps
    this value whatever the clock reads afterwards.  On a player that is
    not running [pause()] does nothing. *)
Theorem pause_freezes (p : WebAudioPlayer) (t : Q) :
  (_state p <> St_running -> pause p = (p, []))
  /\ (_state p = St_running ->
      ctx_pending (_ctx p) = [] ->
      ctx_state (_ctx p) <> Ctx_closed ->
      currentTime p = Some t ->
      effects pause p = [CtxSuspend]
      /\ _state (after pause p) = St_running
      /\ effects ctx_settle (after pause p) = notification p St_paused
      /\ _state (after ctx_settle (after pause p)) = St_paused
      /\ _lastCurrentTime (after ctx_settle (after pause p)) = t
      /\ _sourceNode (after ctx_settle (after pause p)) = _sourceNode p
      /\ ctx_state (_ctx (after ctx_settle (after pause p))) = Ctx_suspended
      /\ forall c, currentTime (upd_ctx c (after ctx_settle (after pause p)))
                   = Some t).
Proof.
  split.
  - intro H. apply state_eqb_neq in H. unfold pause. rewrite H. reflexivity.
  - intros Hrun Hpend Hopen Ht.
    destruct (pause_settled p t Hrun Hpend Hopen Ht) as [Hp Hs].
    unfold effects at 1. unfold after at 1. rewrite Hp. cbn [fst snd].
    split; [reflexivity|]. split; [exact Hrun|].
    unfold effects, after in *. rewrite Hp in *. cbn [fst] in *.
    rewrite Hs. cbn. repeat split; try reflexivity.
Qed.

Lemma pause_freezes_witness :
  _state (after ctx_settle (after pause (ctx_advance 5 player_ranged_running)))
  = St_paused
  /\ _lastCurrentTime
       (after ctx_settle (after pause (ctx_advance 5 player_ranged_running)))
     = 15.
Proof.
  destruct (pause_freezes (ctx_advance 5 player_ranged_running) 15)
    as [_ H].
  destruct H as [_ [_ [_ [H1 [H2 _]]]]];
    [vm_compute; reflexivity | vm_compute; reflexivity
     | vm_compute; discriminate | vm_compute; reflexivity |].
  split; [exact H1 | exact H2].
Defined.

(** [play()] on a paused player, then the resume completes. *)
Lemma resume_settled (q : WebAudioPlayer) :
  _state q = St_paused ->
  _audioBuffer q <> None ->
  valid_config q ->
  ctx_pending (_ctx q) = [] ->
  ctx_state (_ctx q) <> Ctx_closed ->
  play q
  = (upd_ctx (ctx_request ReqResume K_play_resumed (_ctx q)) q, [CtxResume])
  /\ ctx_settle (after play q)
     = (upd_state St_running (upd_ctx (settled_ctx Ctx_running q) q),
        notification q St_running).
Proof.
  intros Hst Hb Hv Hpend Hopen. apply play_check_valid in Hv.
  assert (Hp : play q
               = (upd_ctx (ctx_request ReqResume K_play_resumed (_ctx q)) q,
                  [CtxResume])).
  { unfold play. destruct (_audioBuffer q); [|congruence].
    rewrite Hv, Hst. reflexivity. }
  split; [exact Hp|].
  unfold after. rewrite Hp. cbn [fst].
  unfold ctx_settle, settled_ctx, notification.
  open_player q. destruct c as [cs ct cn pend]. cbn in Hpend, Hopen |- *.
  subst pend. unfold_actions. cbn.
  destruct cs, cb; try reflexivity; congruence.
Qed.

(** X10.  Pause then play resumes the same run: once the suspension and
    the resume have completed the state is running again, the node and the
    anchor are the ones of before, no node was destroyed or started, and,
    the clock standing still while the context is suspended, [currentTime]
    is the position at which playback was paused. *)
Theorem pause_then_play_resumes (p : WebAudioPlayer) (t d : Q) :
  _state p = St_running ->
  _audioBuffer p <> None ->
  valid_config p ->
  ctx_pending (_ctx p) = [] ->
  ctx_state (_ctx p) = Ctx_running ->
  currentTime p = Some t ->
  let cs := [Call_pause; Env_settle; Env_advance d; Call_play; Env_settle] in
  _state (after (run cs) p) = St_running
  /\ _sourceNode (after (run cs) p) = _sourceNode p
  /\ _ctxStartTime (after (run cs) p) = _ctxStartTime p
  /\ _ctx (after (run cs) p) = _ctx p
  /\ currentTime (after (run cs) p) = Some t
  /\ effects (run cs) p
     = [CtxSuspend] ++ notification p St_paused
       ++ [CtxResume] ++ notification p St_running.
Proof.
  intros Hrun Hb Hv Hpend Hctx Ht cs.
  assert (Hopen : ctx_state (_ctx p) <> Ctx_closed) by (rewrite Hctx; discriminate).
  destruct (pause_settled p t Hrun Hpend Hopen Ht) as [Hp Hs].
  set (q := upd_state St_paused
              (upd_lastCurrentTime t
                 (upd_ctx (settled_ctx Ctx_suspended p) p))) in *.
  assert (Hq : ctx_advance d q = q) by reflexivity.
  destruct (resume_settled q) as [Hpl Hse];
    [reflexivity | exact Hb | exact Hv | reflexivity | discriminate |].
  assert (Hfinal : run cs p
                   = (upd_state St_running (upd_ctx (settled_ctx Ctx_running q) q),
                      [CtxSuspend] ++ notification p St_paused
                        ++ [CtxResume] ++ notification p St_running)).
  { unfold cs. cbn [run exec]. unfold seq at 1. rewrite Hp.
    unfold seq at 1. unfold after in Hs. rewrite Hp in Hs. cbn [fst] in Hs.
    rewrite Hs.
    unfold seq at 1. unfold assign at 1. rewrite Hq.
    unfold seq at 1. rewrite Hpl.
    unfold seq at 1. unfold after in Hse. rewrite Hpl in Hse. cbn [fst] in Hse.
    rewrite Hse. unfold skip. cbn [app].
    rewrite app_nil_r. reflexivity. }
  unfold after, effects. rewrite Hfinal. cbn [fst snd].
  split; [reflexivity|]. split; [reflexivity|]. split; [reflexivity|].
  split.
  - unfold settled_ctx. cbn. rewrite <- Hctx, <- Hpend.
    destruct (_ctx p). reflexivity.
  - split; [|reflexivity].
    rewrite <- Ht. unfold currentTime. cbn. rewrite Hrun. reflexivity.
Qed.

Lemma pause_then_play_resumes_witness :
  currentTime
    (after (run [Call_pause; Env_settle; Env_advance 3; Call_play; Env_settle])
       (ctx_advance 5 player_ranged_running))
  = Some 15.
Proof.
  apply (pause_then_play_resumes (ctx_advance 5 player_ranged_running) 15 3);
    vm_compute; try reflexivity; discriminate.
Defined.



(* ------------------------------------------------------------------ *)
(** ** [destroy] *)



(* ------------------------------------------------------------------ *)
(** ** What every session keeps *)








(* ------------------------------------------------------------------ *)
(** ** Notifications *)

Lemma effects_seq (a b : Action) (p : WebAudioPlayer) :
  effects (a ;; b) p = effects a p ++ effects b (after a p).
Proof.
  unfold effects, after, seq. destruct (a p) as [p1 e1]. cbn.
  destruct (b p1). reflexivity.
Qed.

Lemma notifies_seq (a b : Action) : notifies a -> notifies b -> notifies (a ;; b).
Proof.
  intros Ha Hb p cb Hcb.
  destruct (Ha p cb Hcb) as [Hcb1 Hs1].
  destruct (Hb (after a p) cb Hcb1) as [Hcb2 Hs2].
  rewrite after_seq, effects_seq. split; [exact Hcb2|].
  destruct Hs2 as [E2 | I2].
  - rewrite E2. destruct Hs1 as [E1 | I1]; [left; exact E1|].
    right. apply in_or_app. left. exact I1.
  - right. apply in_or_app. right. exact I2.
Qed.

Lemma notifies_emit (s : TPlayerState) : notifies (_emitStateChange s).
Proof.
  intros p cb Hcb. open_player p. cbn in Hcb. subst.
  unfold_actions. cbn. auto.
Qed.

Lemma notifies_silent (a : Action) :
  (forall p, _state (after a p) = _state p
             /\ _onStateChange (after a p) = _onStateChange p) ->
  notifies a.
Proof.
  intros H p cb Hcb. destruct (H p) as [Hs Ho].
  rewrite Ho. split; [exact Hcb | left; exact Hs].
Qed.

Lemma notifies_stop : notifies stop.
Proof.
  intros p cb Hcb. open_player p. cbn in Hcb. subst.
  unfold_actions. cbn. destruct sn; cbn; auto.
Qed.

Lemma notifies_play : notifies play.
Proof.
  intros p cb Hcb. unfold after, effects, play.
  destruct (_audioBuffer p); [|cbn; auto].
  destruct (play_check p); [cbn; auto|].
  destruct (TPlayerState_eqb (_state p) St_paused).
  - open_player p. cbn in Hcb. subst. unfold_actions. cbn. auto.
  - unfold play_createSource, play_initGain, play_start.
    open_player p. cbn in Hcb. subst. unfold_actions. cbn.
    destruct sn, gn; cbn; case_start; cbn; auto 10.
Qed.

Lemma notifies_setConfig (v : IPlayerConfig) : notifies (setConfig v).
Proof.
  intros p cb Hcb.
  destruct (configured_frame v p) as [Fst [_ [_ [_ [_ [_ Fcb]]]]]].
  assert (Hcb' : _onStateChange (configured v p) = Some cb)
    by (rewrite Fcb; exact Hcb).
  destruct (notifies_stop _ cb Hcb') as [Hcb1 Hs1].
  destruct (restart_required (_loop p) v) eqn:Hre.
  - destruct (TPlayerState_eqb (_state p) St_running) eqn:Hst.
    + apply state_eqb_eq in Hst.
      unfold after, effects. rewrite (setConfig_running v p Hre Hst).
      cbn [fst snd].
      destruct (notifies_play _ cb Hcb1) as [Hcb2 Hs2].
      split; [exact Hcb2|].
      destruct Hs2 as [E2 | I2].
      * rewrite E2. destruct Hs1 as [E1 | I1].
        -- left. rewrite E1. exact Fst.
        -- right. apply in_or_app. right. apply in_or_app. left. exact I1.
      * right. apply in_or_app. right. apply in_or_app. right. exact I2.
    + apply state_eqb_neq in Hst.
      unfold after, effects. rewrite (setConfig_not_running v p Hre Hst).
      cbn [fst snd]. split; [exact Hcb1|].
      destruct Hs1 as [E1 | I1].
      * left. rewrite E1. exact Fst.
      * right. apply in_or_app. right. exact I1.
  - unfold after, effects. rewrite (setConfig_hot v p Hre). cbn [fst snd].
    split; [exact Hcb' | left; exact Fst].
Qed.

Lemma notifies_continuation (k : Continuation) : notifies (run_continuation k).
Proof.
  destruct k; cbn [run_continuation].
  - apply notifies_silent. intro p. split; reflexivity.
  - apply notifies_emit.
  - intros p cb Hcb. unfold after, effects, pause_suspended.
    destruct (currentTime p); [|cbn; auto].
    open_player p. cbn in Hcb. subst. unfold_actions. cbn. auto.
Qed.

Lemma notifies_ctx_settle : notifies ctx_settle.
Proof.
  intros p cb Hcb. unfold after, effects, ctx_settle.
  destruct (ctx_pending (_ctx p)) as [|[r k] rest]; [cbn; auto|].
  destruct (ctx_state (_ctx p)), r; cbn [skip fst snd]; auto;
    match goal with
    | |- context [run_continuation k ?q] =>
        apply (notifies_continuation k q cb); exact Hcb
    end.
Qed.

(** X14.  No state change is silent: whatever a client calls and whatever
    the environment does, if the state after the step differs from the
    state before it, the installed subscriber was told the new state during
    that step. *)
Theorem state_change_is_notified
        (c : Command) (p : WebAudioPlayer) (cb : TOnStateChange) :
  _onStateChange p = Some cb ->
  _state (after (exec c) p) <> _state p ->
  In (OnStateChange cb (_state (after (exec c) p))) (effects (exec c) p).
Proof.
  intros Hcb Hne.
  assert (H : notifies (exec c) \/ exec c = set_onStateChange
                                              match c with
                                              | Set_onStateChange v => v
                                              | _ => None
                                              end).
  { destruct c; cbn [exec]; [left .. | right; reflexivity | left | left | left].
    - apply notifies_play.
    - apply notifies_silent. intro q. open_player q. unfold_actions. cbn.
      destruct st; split; reflexivity.
    - apply notifies_stop.
    - apply notifies_silent. intro q. open_player q. unfold_actions. cbn.
      destruct sn; split; reflexivity.
    - apply notifies_setConfig.
    - apply notifies_silent. intro q. split; reflexivity.
    - apply notifies_silent. intro q. unfold after, assign, ctx_advance.
      open_player q. cbn. destruct (ctx_state c); split; reflexivity.
    - apply notifies_ctx_settle.
    - intros q cb' Hcb'. unfold dispatch_ended.
      open_player q. cbn in Hcb'. subst. unfold_actions. cbn.
      destruct sn; [destruct st|]; cbn; auto. }
  destruct H as [H | E].
  - destruct (H p cb Hcb) as [_ [E | I]]; [contradiction | exact I].
  - exfalso. apply Hne. rewrite E. reflexivity.
Qed.

Lemma state_change_is_notified_witness :
  In (OnStateChange 7%nat
        (_state (after (exec (Call_setConfig (cfg_startOffset 25)))
                   (after (set_onStateChange (Some 7%nat))
                      player_ranged_running))))
     (effects (exec (Call_setConfig (cfg_startOffset 25)))
        (after (set_onStateChange (Some 7%nat)) player_ranged_running)).
Proof.
  apply state_change_is_notified.
  - vm_compute. reflexivity.
  - vm_compute. discriminate.
Defined.

(* ------------------------------------------------------------------ *)
(** ** The promises of the loaders *)






(** X16.  The promise of [loadAudioFromFile] is never rejected: it is
    fulfilled exactly when the reader delivers bytes that decode, and stays
    pending in every other case, a failed read included. *)
Theorem loadAudioFromFile_never_rejects
        (decode : ArrayBuffer -> option AudioBuffer) (result : ReaderResult) :
  loadAudioFromFile decode result <> Rejected
  /\ (forall b, loadAudioFromFile decode result = Fulfilled b <->
      exists bytes, result = Result_arrayBuffer bytes
                    /\ decode bytes = Some b)
  /\ ((forall bytes, result = Result_arrayBuffer bytes -> decode bytes = None)
      -> loadAudioFromFile decode result = Pending).
Proof.
  unfold loadAudioFromFile, loadAudioFromFile_onloadend, decodeAudioData.
  destruct result as [bytes| |].
  - destruct (decode bytes) as [b0|] eqn:Ed; cbn.
    + split; [discriminate|]. split.
      * intro b. split.
        -- intro E. injection E as <-. exists bytes. auto.
        -- intros [bytes' [E Hd]]. injection E as <-. congruence.
      * intro H. specialize (H bytes eq_refl). congruence.
    + split; [discriminate|]. split.
      * intro b. split; [discriminate|].
        intros [bytes' [E Hd]]. injection E as <-. congruence.
      * reflexivity.
  - split; [discriminate|]. split.
    + intro b. split; [discriminate | intros [? [? _]]; discriminate].
    + reflexivity.
  - split; [discriminate|]. split.
    + intro b. split; [discriminate | intros [? [? _]]; discriminate].
    + reflexivity.
Qed.

Lemma loadAudioFromFile_never_rejects_witness :
  loadAudioFromFile decode_riff Result_null = Pending.
Proof.
  apply (proj2 (proj2 (loadAudioFromFile_never_rejects decode_riff
                         Result_null))).
  intros bytes E. discriminate E.
Defined.

(* ------------------------------------------------------------------ *)
(** ** The replacement of the node, on a session *)

